(** * Proctor_test: the inference-to-event pipeline

    A shallow embedding of the TypeScript front end:
    - [Utils]              frontend/src/proctor/utils.ts (metric engine),
    - [Types]              frontend/src/proctor/types.ts,
    - [App]                frontend/src/App.tsx (flag gate, throttle, mode switch),
    - [IndividualProctor]  frontend/src/proctor/IndividualProctor.tsx,
    - [TeamProctor]        frontend/src/proctor/TeamProctor.tsx.

    JavaScript numbers are IEEE 754 binary64 values; they are modelled by
    Rocq's primitive floats, so NaN, the infinities and the signed zeros
    behave as in the program.  Timestamps ([Date.now()]) are integers and are
    modelled in [Z]. *)

From Stdlib Require Import ZArith Floats Lia.
From stdpp Require Import base option list gmap strings pretty.

Set Warnings "-inexact-float".

(** ** JavaScript numbers *)

Module JS.

Abbreviation number := float.

(** [!v] on a number: true for [+0], [-0] and [NaN]. *)
Definition falsy (v : number) : bool := (is_zero v || is_nan v)%bool.

Definition is_neg_zero (v : number) : bool :=
  match classify v with NZero => true | _ => false end.

Definition is_pos_zero (v : number) : bool :=
  match classify v with PZero => true | _ => false end.

(** [Math.max(a, b)] as ECMAScript defines it: NaN if an argument is NaN,
    and [+0] counts as larger than [-0]. *)
Definition Math_max (a b : number) : number :=
  if (is_nan a || is_nan b)%bool then nan
  else if (a <? b)%float then b
  else if (is_neg_zero a && is_pos_zero b)%bool then b
  else a.

(** [Math.min(a, b)] as ECMAScript defines it: NaN if an argument is NaN,
    and [-0] counts as smaller than [+0]. *)
Definition Math_min (a b : number) : number :=
  if (is_nan a || is_nan b)%bool then nan
  else if (b <? a)%float then b
  else if (is_pos_zero a && is_neg_zero b)%bool then b
  else a.

Definition Math_abs (v : number) : number := abs v.

Definition Math_sqrt (v : number) : number := sqrt v.

(** [Math.PI], the binary64 value nearest to pi. *)
Definition Math_PI : number := 0x1.921fb54442d18p+1%float.

(** The two library functions of [utils.ts] that ECMAScript leaves
    "implementation-approximated".  The development assumes of them only
    the results ECMAScript fixes for [Math.hypot] (an infinite argument, a
    NaN argument, all zeros) and for [Math.asin] (NaN, outside [-1, 1], a
    zero); every theorem below holds for any engine. *)
Class MathBuiltins := {
  Math_hypot : number -> number -> number;
  Math_asin  : number -> number;
  hypot_infinity : forall a b,
    (is_infinity a || is_infinity b)%bool = true -> Math_hypot a b = infinity;
  hypot_nan : forall a b,
    (is_infinity a || is_infinity b)%bool = false ->
    (is_nan a || is_nan b)%bool = true -> Math_hypot a b = nan;
  hypot_zero : forall a b,
    (is_zero a && is_zero b)%bool = true -> Math_hypot a b = zero;
  asin_nan : Math_asin nan = nan;
  asin_above : forall v, (1 <? v)%float = true -> Math_asin v = nan;
  asin_below : forall v, (v <? -1)%float = true -> Math_asin v = nan;
  asin_zero : forall v, is_zero v = true -> Math_asin v = v
}.

(** One engine, for evaluating the program on concrete inputs: [hypot] by
    the usual scaled sum of squares, [asin] by its power series on
    [|v| <= 1/2] and the half-angle identity above it. *)
Definition scaled_hypot (a b : number) : number :=
  if (is_infinity a || is_infinity b)%bool then infinity
  else if (is_nan a || is_nan b)%bool then nan
  else
    let x := abs a in
    let y := abs b in
    let m := if (x <? y)%float then y else x in
    if is_zero m then zero
    else (sqrt ((x / m) * (x / m) + (y / m) * (y / m)) * m)%float.

Definition asin_series (v : number) : number :=
  let v2 := (v * v)%float in
  (v * (1 + v2 * (1 / 6 + v2 * (3 / 40 + v2 * (15 / 336 +
     v2 * (105 / 3456 + v2 * (945 / 42240)))))))%float.

Definition series_asin (v : number) : number :=
  if (1 <? v)%float then nan
  else if (v <? -1)%float then nan
  else if is_nan v then nan
  else if is_zero v then v
  else if (abs v <=? 0.5)%float then asin_series v
  else
    let r := (Math_PI / 2 - 2 * asin_series (sqrt ((1 - abs v) / 2)))%float in
    if (v <? 0)%float then (- r)%float else r.

End JS.

Import JS.

(** ** utils.ts *)

Module Utils.

(** A MediaPipe [NormalizedLandmark]; [FaceLandmarks] is the array of them
    for one face. *)
Record Landmark := mkLandmark { x : number; y : number; z : number }.

Definition FaceLandmarks := list Landmark.

Record FaceMetrics := mkFaceMetrics { distanceCm : number; yawDeg : number }.

Definition DEFAULT_IPD_CM : number := 6.3%float.
Definition BASELINE_VIDEO_WIDTH : number := 1280%float.
Definition BASELINE_FOCAL_PX : number := 750%float.
Definition HEAD_YAW_MAX_DEG : number := 90%float.
Definition RAD2DEG : number := (180 / Math_PI)%float.
Definition YAW_OFFSET_SCALE : number := 0.55%float.
Definition DISTANCE_RANGE_CM_min : number := 10%float.
Definition DISTANCE_RANGE_CM_max : number := 150%float.
Definition MIN_FACE_AREA : number := 0.015%float.

Definition LANDMARK_INDEX_rightEyeOuter : nat := 33.
Definition LANDMARK_INDEX_leftEyeOuter : nat := 263.
Definition LANDMARK_INDEX_noseTip : nat := 1.

Definition clamp (value min max : number) : number :=
  Math_min (Math_max value min) max.

(** [landmarks[index] ?? null]: [None] is the [null] of an index past the
    end of the array. *)
Definition getLandmark (landmarks : FaceLandmarks) (index : nat) : option Landmark :=
  landmarks !! index.

Section WithEngine.
Context {engine : MathBuiltins}.

Definition distance2D (a b : Landmark) : number :=
    let dx := (x a - x b)%float in
    let dy := (y a - y b)%float in
    Math_hypot dx dy.

Definition computeFaceMetrics (landmarks : FaceLandmarks) (videoWidth : number)
    : option FaceMetrics :=
    if falsy videoWidth then None
    else
      match getLandmark landmarks LANDMARK_INDEX_leftEyeOuter,
            getLandmark landmarks LANDMARK_INDEX_rightEyeOuter,
            getLandmark landmarks LANDMARK_INDEX_noseTip with
      | Some leftEye, Some rightEye, Some noseTip =>
          let interpupilNorm := distance2D leftEye rightEye in
          if falsy interpupilNorm then None
          else
            let interpupilPx := (interpupilNorm * videoWidth)%float in
            let widthScale := (videoWidth / BASELINE_VIDEO_WIDTH)%float in
            let effectiveFocalPx := (BASELINE_FOCAL_PX * widthScale)%float in
            let distanceCmRaw := ((DEFAULT_IPD_CM * effectiveFocalPx) / interpupilPx)%float in
            let distanceCm := clamp distanceCmRaw DISTANCE_RANGE_CM_min DISTANCE_RANGE_CM_max in
            let eyeMidX := ((x leftEye + x rightEye) / 2)%float in
            let noseOffset := (x noseTip - eyeMidX)%float in
            let yawRatio :=
              clamp (noseOffset / (interpupilNorm * YAW_OFFSET_SCALE))%float (-1)%float 1%float in
            let yawDegRaw :=
              clamp (- Math_asin yawRatio * RAD2DEG)%float (- HEAD_YAW_MAX_DEG)%float HEAD_YAW_MAX_DEG in
            Some {| distanceCm := distanceCm; yawDeg := yawDegRaw |}
      | _, _, _ => None
      end.
End WithEngine.

(** The bounding box accumulated by the [forEach] of [computeFaceArea]:
    [(minX, maxX, minY, maxY)]. *)
Definition faceBounds (landmarks : FaceLandmarks) : number * number * number * number :=
  fold_left
    (fun '(minX, maxX, minY, maxY) lm =>
       (Math_min minX (x lm), Math_max maxX (x lm), Math_min minY (y lm), Math_max maxY (y lm)))
    landmarks (1%float, 0%float, 1%float, 0%float).

Definition computeFaceArea (landmarks : FaceLandmarks) : number :=
  let '(minX, maxX, minY, maxY) := faceBounds landmarks in
  let width := Math_max 0%float (maxX - minX)%float in
  let height := Math_max 0%float (maxY - minY)%float in
  (width * height)%float.

End Utils.


(** ** types.ts *)

Module Types.

Inductive StreamState := stream_idle | stream_starting | stream_active | stream_error.
Inductive ModelState := model_idle | model_loading | model_ready | model_error.
Inductive EventKind := kind_video | kind_audio | kind_system.
Inductive Severity := info | warn | error.

Inductive EventCategory :=
  | cat_audio | cat_gaze | cat_faces | cat_gadgets | cat_capacity | cat_presence | cat_system.

(** An admitted event.  [ts] holds the instant whose ISO-8601 rendering the
    program stores. *)
Record EventRecord := mkEventRecord {
  id : string;
  ts : Z;
  message : string;
  severity : Severity;
  kind : EventKind
}.

(** The five arguments of one [postEvent] call ([PostEventFn]). *)
Record Candidate := mkCandidate {
  c_key : string;
  c_category : EventCategory;
  c_kind : EventKind;
  c_severity : Severity;
  c_message : string
}.

Record IndividualFlags := mkIndividualFlags {
  i_audio : bool; i_gaze : bool; i_faces : bool; i_gadgets : bool
}.

Record TeamFlags := mkTeamFlags {
  t_capacity : bool; t_presence : bool; t_gaze : bool
}.

#[global] Instance EventKind_eq_dec : EqDecision EventKind.
Proof. solve_decision. Defined.
#[global] Instance Severity_eq_dec : EqDecision Severity.
Proof. solve_decision. Defined.
#[global] Instance EventCategory_eq_dec : EqDecision EventCategory.
Proof. solve_decision. Defined.

End Types.

Import Types.

(** One video frame as a proctor's [analyze] sees it once the guard
    [video && landmarker && modelState === "ready" && readyState >= HAVE_ENOUGH_DATA]
    has passed: the faces of [result.faceLandmarks] (an absent array reads as
    no face) and [video.videoWidth]. *)
Record Frame := mkFrame {
  faceLandmarks : list Utils.FaceLandmarks;
  videoWidth : number
}.

(** ** IndividualProctor.tsx *)

Module IndividualProctor.

Definition GAZE_YAW_THRESHOLD : number := 35%float.
Definition YOLO_SAMPLE_MS : Z := 1800.

Definition gadgetLabels : list string :=
  ["cell phone"; "laptop"; "tv"; "remote"; "keyboard"; "mouse"; "tablet"; "monitor"].

Definition toKind (category : EventCategory) : EventKind :=
  match category with
  | cat_audio => kind_audio
  | cat_system => kind_system
  | _ => kind_video
  end.

(** The hook state that feeds back into the loop; the display-only states
    (face count, yaw, distance, audio level, overlay text, last gadget hit)
    are written and never read by the rules and are left out. *)
Record State := mkState { speechActive : bool }.

(** [useState(false)] at mount. *)
Definition initialState : State := {| speechActive := false |}.

(** [startStreams]: one system event, by the outcome of [getUserMedia]. *)
Definition startStreams (granted : bool) : list Candidate :=
  if granted
  then [mkCandidate "media-on" cat_system (toKind cat_system) info "Camera and mic granted"]
  else [mkCandidate "media-error" cat_system (toKind cat_system) error "Failed to start camera or mic"].

Section WithEngine.
Context {engine : MathBuiltins}.

(** The face part of [analyze]; [None] is the else branch of its guard. *)
Definition analyzeVideo (flags : IndividualFlags) (frame : option Frame) : list Candidate :=
  match frame with
  | None => []
  | Some (mkFrame faces width) =>
      let count := length faces in
      (if (i_faces flags && (1 <? count)%nat)%bool
       then [mkCandidate "multi-face" cat_faces (toKind cat_faces) warn "Multiple faces detected"]
       else [])
      ++
      match faces !! 0%nat with
      | Some primaryFace =>
          let area := Utils.computeFaceArea primaryFace in
          (if (area <? Utils.MIN_FACE_AREA)%float
           then if i_faces flags
                then [mkCandidate "face-small" cat_faces (toKind cat_faces) warn
                        "Face too small for reliable landmarks"]
                else []
           else [])
          ++
          match Utils.computeFaceMetrics primaryFace width with
          | Some metrics =>
              if (i_gaze flags && (GAZE_YAW_THRESHOLD <? Math_abs (Utils.yawDeg metrics))%float)%bool
              then [mkCandidate "yaw" cat_gaze (toKind cat_gaze) warn "Viewer looking away from screen"]
              else []
          | None => []
          end
      | None =>
          if i_faces flags
          then [mkCandidate "no-face" cat_faces (toKind cat_faces) warn "No face detected"]
          else []
      end
  end.

End WithEngine.

Definition speechThresholdOn : number := 0.05%float.
Definition speechThresholdOff : number := 0.025%float.

(** A small non-negative integer (a byte of the [Uint8Array], the array's
    length) as a number. *)
Definition intToNumber (n : Z) : number := of_uint63 (Uint63.of_Z n).

(** The RMS of one time-domain window, the [for] loop of [analyze]. *)
Definition computeRms (dataArray : list Z) : number :=
  let sumSquares :=
    fold_left
      (fun acc b =>
         let centered := ((intToNumber b - 128) / 128)%float in
         (acc + centered * centered)%float)
      dataArray 0%float in
  Math_sqrt (sumSquares / intToNumber (Z.of_nat (length dataArray)))%float.

(** The speech part of [analyze], from the RMS on: the new [speechActive]
    and the events posted. *)
Definition analyzeAudio (flags : IndividualFlags) (speechActive : bool) (rms : number)
  : bool * list Candidate :=
  if i_audio flags then
    if (negb speechActive && (speechThresholdOn <? rms)%float)%bool then
      (true, [mkCandidate "speech-on" cat_audio (toKind cat_audio) info "Speech detected"])
    else if (speechActive && (rms <? speechThresholdOff)%float)%bool then
      (false, [mkCandidate "speech-off" cat_audio (toKind cat_audio) info "Silence detected"])
    else (speechActive, [])
  else (speechActive, []).

(** The speech part over consecutive runs of the loop, one RMS reading per
    run: after each run, the state it leaves and the events it posts. *)
Fixpoint audioTrace (flags : IndividualFlags) (speechActive : bool) (readings : list number)
  : list (bool * list Candidate) :=
  match readings with
  | [] => []
  | rms :: rest =>
      let '(active, calls) := analyzeAudio flags speechActive rms in
      (active, calls) :: audioTrace flags active rest
  end.

(** One run of [analyze]: [frame] as above, [mic] the window read from the
    analyser node ([None] while there is no analyser). *)
Definition analyze {engine : MathBuiltins} (flags : IndividualFlags)
    (frame : option Frame) (mic : option (list Z)) (st : State) : State * list Candidate :=
  let videoCalls := analyzeVideo flags frame in
  match mic with
  | Some dataArray =>
      let '(active, audioCalls) := analyzeAudio flags (speechActive st) (computeRms dataArray) in
      ({| speechActive := active |}, videoCalls ++ audioCalls)
  | None => (st, videoCalls)
  end.

(** One object of the detector's output; the box is not read. *)
Record Detection := mkDetection { label : string; score : number }.

Definition isPerson (d : Detection) : bool :=
  (bool_decide (label d = "person") && (0.45 <=? score d)%float)%bool.

Definition isGadget (d : Detection) : bool :=
  (bool_decide (label d ∈ gadgetLabels) && (0.35 <=? score d)%float)%bool.

(** The body of [runDetector] from the detector's answer on.  [None] stands
    for a sample without an answer: the detector, the video or the canvas
    is not ready, or the call threw. *)
Definition runDetector (flags : IndividualFlags) (sample : option (list Detection))
  : list Candidate :=
  match sample with
  | None => []
  | Some detections =>
      let persons := length (filter (fun d => isPerson d = true) detections) in
      let gadget := find isGadget detections in
      (if (i_faces flags && (1 <? persons)%nat)%bool
       then [mkCandidate "yolo-multi-person" cat_faces (toKind cat_faces) warn
               (pretty persons +:+ " people detected in frame (YOLO)")]
       else [])
      ++
      match gadget with
      | Some g =>
          if i_gadgets flags
          then [mkCandidate "yolo-gadget" cat_gadgets (toKind cat_gadgets) warn
                  ("Gadget detected: " +:+ label g)]
          else []
      | None => []
      end
  end.

End IndividualProctor.

(** ** TeamProctor.tsx *)

Module TeamProctor.

Definition GAZE_YAW_THRESHOLD : number := 40%float.
Definition NO_FACE_GRACE_MS : Z := 5000.

(** [lastFaceTsRef]; team mode has no speech state at all. *)
Record State := mkState { lastFaceTsRef : Z }.

(** [useRef(Date.now())] at mount. *)
Definition initialState (now : Z) : State := {| lastFaceTsRef := now |}.

Definition startStream (granted : bool) : list Candidate :=
  if granted
  then [mkCandidate "team-media-on" cat_system kind_system info "Camera granted for team mode"]
  else [mkCandidate "team-media-error" cat_system kind_system error
          "Failed to start camera in team mode"].

(** One run of [analyze] at clock reading [now]. *)
Definition analyze {engine : MathBuiltins} (teamLimit : Z) (flags : TeamFlags)
    (frame : option Frame) (now : Z) (st : State) : State * list Candidate :=
  match frame with
  | None => (st, [])
  | Some (mkFrame faces width) =>
      let count := length faces in
      let lastFaceTs := if (0 <? count)%nat then now else lastFaceTsRef st in
      ({| lastFaceTsRef := lastFaceTs |},
       (if (t_capacity flags && (teamLimit <? Z.of_nat count)%Z)%bool
        then [mkCandidate "team-overflow" cat_capacity kind_video warn
                (pretty count +:+ " people detected (limit " +:+ pretty teamLimit +:+ ")")]
        else [])
       ++
       (if (t_presence flags && (count =? 0)%nat && (NO_FACE_GRACE_MS <? now - lastFaceTs)%Z)%bool
        then [mkCandidate "team-empty" cat_presence kind_video warn "No teammates detected"]
        else [])
       ++
       match faces !! 0%nat with
       | Some primaryFace =>
           match Utils.computeFaceMetrics primaryFace width with
           | Some metrics =>
               if (t_gaze flags && (GAZE_YAW_THRESHOLD <? Math_abs (Utils.yawDeg metrics))%float)%bool
               then [mkCandidate "team-yaw" cat_gaze kind_video warn "Primary viewer looking away"]
               else []
           | None => []
           end
       | None => []
       end)
  end.

End TeamProctor.

(** ** App.tsx *)

Module App.

Inductive ProctorMode := individual | team.

#[global] Instance ProctorMode_eq_dec : EqDecision ProctorMode.
Proof. solve_decision. Defined.

Definition defaultIndividualFlags : IndividualFlags :=
  {| i_audio := true; i_gaze := true; i_faces := true; i_gadgets := true |}.

Definition defaultTeamFlags : TeamFlags :=
  {| t_capacity := true; t_presence := true; t_gaze := false |}.

(** [individualFlags[category]]: the object has exactly the four keys of
    [IndividualFlags]; any other key reads [undefined]. *)
Definition individualFlag (flags : IndividualFlags) (category : EventCategory) : option bool :=
  match category with
  | cat_audio => Some (i_audio flags)
  | cat_gaze => Some (i_gaze flags)
  | cat_faces => Some (i_faces flags)
  | cat_gadgets => Some (i_gadgets flags)
  | _ => None
  end.

(** [teamFlags[category]], likewise with the three keys of [TeamFlags]. *)
Definition teamFlag (flags : TeamFlags) (category : EventCategory) : option bool :=
  match category with
  | cat_capacity => Some (t_capacity flags)
  | cat_presence => Some (t_presence flags)
  | cat_gaze => Some (t_gaze flags)
  | _ => None
  end.

Definition isFlagEnabled (mode : ProctorMode) (individualFlags : IndividualFlags)
    (teamFlags : TeamFlags) (category : EventCategory) : bool :=
  match mode with
  | individual => default true (individualFlag individualFlags category)
  | team => default true (teamFlag teamFlags category)
  end.

(** What [postEvent] reads and writes: the [events] state and the object
    behind [lastEventRef], a map from event keys to clock readings.  The keys
    are the string literals of the two proctors; none of them names a
    property that a plain object inherits. *)
Record Store := mkStore {
  events : list EventRecord;
  lastEventRef : gmap string Z
}.

(** The literal 4000 of the guard, in milliseconds. *)
Definition cooldownMs : Z := 4000.

(** The guard [last && now - last < 4000].  [last] is [undefined] for a key
    that was never written; a number is truthy unless it is zero. *)
Definition inCooldown (last : option Z) (now : Z) : bool :=
  match last with
  | None => false
  | Some t => (negb (t =? 0)%Z && (now - t <? cooldownMs)%Z)%bool
  end.

(** [current.slice(-19)]: the last 19 entries at most. *)
Definition lastEntries (n : nat) (current : list EventRecord) : list EventRecord :=
  drop (length current - n) current.

(** The throttle, [postEvent] after its flag gate: at clock reading [now],
    with [rnd] the hexadecimal digits drawn from [Math.random()].  The
    second component is the record sent to the collector, if any. *)
Definition throttle (now : Z) (rnd : string) (c : Candidate) (st : Store)
  : Store * option EventRecord :=
  let last := lastEventRef st !! c_key c in
  if inCooldown last now then (st, None)
  else
    let entry :=
      {| id := pretty now +:+ "-" +:+ rnd;
         ts := now;
         message := c_message c;
         severity := c_severity c;
         kind := c_kind c |} in
    ({| events := lastEntries 19 (events st) ++ [entry];
        lastEventRef := <[c_key c := now]> (lastEventRef st) |},
     Some entry).

Definition postEvent (mode : ProctorMode) (individualFlags : IndividualFlags)
    (teamFlags : TeamFlags) (now : Z) (rnd : string) (c : Candidate) (st : Store)
  : Store * option EventRecord :=
  if negb (isFlagEnabled mode individualFlags teamFlags (c_category c)) then (st, None)
  else throttle now rnd c st.

(** The component mounted under [App]: exactly one of the two proctors,
    with its own hook state. *)
Inductive Child :=
  | IndividualMounted (s : IndividualProctor.State)
  | TeamMounted (s : TeamProctor.State).

Record AppState := mkAppState {
  mode : ProctorMode;
  teamLimit : Z;
  individualFlags : IndividualFlags;
  teamFlags : TeamFlags;
  store : Store;
  child : Child
}.

(** The first render: individual mode, limit 3, default flags, no events. *)
Definition initialApp : AppState :=
  {| mode := individual;
     teamLimit := 3;
     individualFlags := defaultIndividualFlags;
     teamFlags := defaultTeamFlags;
     store := {| events := []; lastEventRef := ∅ |};
     child := IndividualMounted IndividualProctor.initialState |}.

(** React mounts the component of the new mode with fresh hook state. *)
Definition mount (next : ProctorMode) (now : Z) : Child :=
  match next with
  | individual => IndividualMounted IndividualProctor.initialState
  | team => TeamMounted (TeamProctor.initialState now)
  end.

(** [setMode(next)].  Setting the current mode again changes nothing; a
    different mode renders the other component type in the same place, so
    React unmounts the old proctor (its state is discarded, its loops are
    cancelled) and mounts the new one. *)
Definition setMode (next : ProctorMode) (now : Z) (app : AppState) : AppState :=
  if bool_decide (next = mode app) then app
  else
    {| mode := next;
       teamLimit := teamLimit app;
       individualFlags := individualFlags app;
       teamFlags := teamFlags app;
       store := store app;
       child := mount next now |}.

(** What happens to an [AppState]: the user's inputs and the callbacks of
    the mounted proctor.  Every callback carries the clock reading and the
    random digits its [postEvent] calls use. *)
Inductive Action :=
  | SetMode (next : ProctorMode) (now : Z)
  | SetIndividualFlags (flags : IndividualFlags)
  | SetTeamFlags (flags : TeamFlags)
  | SetTeamLimit (limit : Z)
  | ClearEvents
  | StreamResult (granted : bool) (now : Z) (rnd : string)
  | AnalyzeTick (frame : option Frame) (mic : option (list Z)) (now : Z) (rnd : string)
  | DetectorTick (sample : option (list IndividualProctor.Detection)) (now : Z) (rnd : string).

(** The [postEvent] calls of one callback, in order, each with its outcome. *)
Fixpoint postAll (mode : ProctorMode) (individualFlags : IndividualFlags)
    (teamFlags : TeamFlags) (now : Z) (rnd : string) (calls : list Candidate) (st : Store)
  : Store * list (Candidate * option EventRecord) :=
  match calls with
  | [] => (st, [])
  | c :: rest =>
      let '(st1, sent) := postEvent mode individualFlags teamFlags now rnd c st in
      let '(st2, log) := postAll mode individualFlags teamFlags now rnd rest st1 in
      (st2, (c, sent) :: log)
  end.

Definition withStore (app : AppState) (st : Store) (ch : Child) : AppState :=
  {| mode := mode app;
     teamLimit := teamLimit app;
     individualFlags := individualFlags app;
     teamFlags := teamFlags app;
     store := st;
     child := ch |}.

Definition emit (app : AppState) (ch : Child) (now : Z) (rnd : string) (calls : list Candidate)
  : AppState * list (Candidate * option EventRecord) :=
  let '(st, log) :=
    postAll (mode app) (individualFlags app) (teamFlags app) now rnd calls (store app) in
  (withStore app st ch, log).

Definition step {engine : MathBuiltins} (app : AppState) (a : Action)
  : AppState * list (Candidate * option EventRecord) :=
  match a with
  | SetMode next now => (setMode next now app, [])
  | SetIndividualFlags flags =>
      ({| mode := mode app; teamLimit := teamLimit app; individualFlags := flags;
          teamFlags := teamFlags app; store := store app; child := child app |}, [])
  | SetTeamFlags flags =>
      ({| mode := mode app; teamLimit := teamLimit app; individualFlags := individualFlags app;
          teamFlags := flags; store := store app; child := child app |}, [])
  | SetTeamLimit limit =>
      ({| mode := mode app; teamLimit := Z.min 10 (Z.max 1 limit);
          individualFlags := individualFlags app; teamFlags := teamFlags app;
          store := store app; child := child app |}, [])
  | ClearEvents =>
      (withStore app {| events := []; lastEventRef := lastEventRef (store app) |} (child app), [])
  | StreamResult granted now rnd =>
      match child app with
      | IndividualMounted _ => emit app (child app) now rnd (IndividualProctor.startStreams granted)
      | TeamMounted _ => emit app (child app) now rnd (TeamProctor.startStream granted)
      end
  | AnalyzeTick frame mic now rnd =>
      match child app with
      | IndividualMounted s =>
          let '(s', calls) := IndividualProctor.analyze (individualFlags app) frame mic s in
          emit app (IndividualMounted s') now rnd calls
      | TeamMounted s =>
          let '(s', calls) := TeamProctor.analyze (teamLimit app) (teamFlags app) frame now s in
          emit app (TeamMounted s') now rnd calls
      end
  | DetectorTick sample now rnd =>
      match child app with
      | IndividualMounted _ =>
          emit app (child app) now rnd (IndividualProctor.runDetector (individualFlags app) sample)
      | TeamMounted _ => (app, [])
      end
  end.

(** A session: the actions in order, with the log of every [postEvent]. *)
Fixpoint run {engine : MathBuiltins} (app : AppState) (actions : list Action)
  : AppState * list (Candidate * option EventRecord) :=
  match actions with
  | [] => (app, [])
  | a :: rest =>
      let '(app1, log1) := step app a in
      let '(app2, log2) := run app1 rest in
      (app2, log1 ++ log2)
  end.

End App.

(** ** Observations

    The vocabulary of the statements below: the candidates the proctors
    post, by name, and what is read off a run. *)

Definition speechOn : Candidate :=
  mkCandidate "speech-on" cat_audio kind_audio info "Speech detected".

Definition speechOff : Candidate :=
  mkCandidate "speech-off" cat_audio kind_audio info "Silence detected".

Definition yawCandidate : Candidate :=
  mkCandidate "yaw" cat_gaze kind_video warn "Viewer looking away from screen".

Definition teamYawCandidate : Candidate :=
  mkCandidate "team-yaw" cat_gaze kind_video warn "Primary viewer looking away".

Definition gadgetCandidate (name : string) : Candidate :=
  mkCandidate "yolo-gadget" cat_gadgets kind_video warn ("Gadget detected: " +:+ name).

(** The gaze candidates among the calls of a run, in order. *)
Definition gazeCalls (calls : list Candidate) : list Candidate :=
  filter (fun c => c_category c = cat_gaze) calls.

(** The audio candidates of a log, in order. *)
Definition audioCalls (log : list (Candidate * option EventRecord)) : list Candidate :=
  filter (fun c => c_category c = cat_audio) log.*1.

Definition emptyStore : App.Store := {| App.events := []; App.lastEventRef := ∅ |}.

(** Whether a [postEvent] call produced a record. *)
Definition admitted (r : App.Store * option EventRecord) : bool :=
  match r.2 with Some _ => true | None => false end.

(** The mounted proctor holds no speech: team mode has no speech state, a
    freshly mounted individual proctor starts at silence. *)
Definition silent (app : App.AppState) : Prop :=
  match App.child app with
  | App.IndividualMounted s => IndividualProctor.speechActive s = false
  | App.TeamMounted _ => True
  end.

Definition noSwitchToIndividual (a : App.Action) : Prop :=
  match a with
  | App.SetMode App.individual _ => False
  | _ => True
  end.

(** A 478-point face whose three read landmarks are the given ones; every
    other point sits at the frame centre. *)
Definition sampleFace (leftEye rightEye noseTip : Utils.Landmark) : Utils.FaceLandmarks :=
  <[Utils.LANDMARK_INDEX_leftEyeOuter := leftEye]>
    (<[Utils.LANDMARK_INDEX_rightEyeOuter := rightEye]>
       (<[Utils.LANDMARK_INDEX_noseTip := noseTip]>
          (replicate 478 (Utils.mkLandmark 0.5 0.5 0)))).

(** * Properties *)

(** ** Binary64 order facts *)

Section FloatOrder.

Lemma pos_compare_cont_swap (p q : positive) :
  PosDef.Pos.compare_cont Eq q p = CompOpp (PosDef.Pos.compare_cont Eq p q).
Proof. exact (eq_sym (Pos.compare_cont_antisym p q Eq)). Qed.

Lemma SFcompare_refl (s : spec_float) : s <> S754_nan -> SFcompare s s = Some Eq.
Proof.
  destruct s as [sg| sg | | sg m e]; simpl; intros H; try congruence.
  - destruct sg; reflexivity.
  - destruct sg; rewrite Z.compare_refl, Pos.compare_cont_refl; reflexivity.
Qed.

Lemma SFcompare_antisym (a b : spec_float) :
  SFcompare b a = match SFcompare a b with Some c => Some (CompOpp c) | None => None end.
Proof.
  destruct a as [sa| sa | | sa ma ea], b as [sb| sb | | sb mb eb]; simpl;
    try reflexivity; try (destruct sa; reflexivity); try (destruct sb; reflexivity);
    try (destruct sa, sb; reflexivity).
  destruct sa, sb; try reflexivity;
    rewrite (Z.compare_antisym eb ea); destruct (eb ?= ea)%Z; simpl; try reflexivity;
    rewrite (pos_compare_cont_swap ma mb); reflexivity.
Qed.

Lemma SFcompare_None (a b : spec_float) :
  SFcompare a b = None -> a = S754_nan \/ b = S754_nan.
Proof.
  destruct a as [sa| sa | | sa ma ea], b as [sb| sb | | sb mb eb]; simpl; auto; discriminate.
Qed.

Lemma is_nan_Prim2SF (v : number) : is_nan v = true <-> Prim2SF v = S754_nan.
Proof.
  unfold is_nan. rewrite FloatAxioms.eqb_spec. unfold SFeqb. split.
  - intros H. destruct (Prim2SF v) eqn:E; try reflexivity;
      rewrite SFcompare_refl in H by discriminate; discriminate.
  - intros ->. reflexivity.
Qed.

Lemma is_nan_false_Prim2SF (v : number) : is_nan v = false <-> Prim2SF v <> S754_nan.
Proof.
  rewrite <- is_nan_Prim2SF. destruct (is_nan v); split; congruence.
Qed.

Lemma is_nan_eq (v : number) : is_nan v = true -> v = nan.
Proof.
  intros H. apply Prim2SF_inj. apply is_nan_Prim2SF in H. rewrite H. reflexivity.
Qed.

Lemma is_zero_Prim2SF (v : number) :
  is_zero v = true <-> exists s, Prim2SF v = S754_zero s.
Proof.
  unfold is_zero. rewrite FloatAxioms.eqb_spec.
  change (Prim2SF zero) with (S754_zero false). unfold SFeqb.
  destruct (Prim2SF v) as [s|s| |s m e]; simpl; split;
    try discriminate; try (intros [? ?]; discriminate); eauto;
    destruct s; discriminate.
Qed.

Lemma is_infinity_Prim2SF (v : number) :
  is_infinity v = true <-> exists s, Prim2SF v = S754_infinity s.
Proof.
  unfold is_infinity. rewrite FloatAxioms.eqb_spec, abs_spec.
  change (Prim2SF infinity) with (S754_infinity false).
  destruct (Prim2SF v) as [s|s| |s m e]; simpl; unfold SFeqb; simpl; split;
    try discriminate; try (intros [? ?]; discriminate); eauto.
Qed.

Lemma leb_refl (v : number) : is_nan v = false -> (v <=? v)%float = true.
Proof.
  intros H. apply is_nan_false_Prim2SF in H.
  rewrite FloatAxioms.leb_spec. unfold SFleb. rewrite SFcompare_refl by assumption. reflexivity.
Qed.

Lemma ltb_leb (a b : number) : (a <? b)%float = true -> (a <=? b)%float = true.
Proof.
  rewrite FloatAxioms.ltb_spec, FloatAxioms.leb_spec. unfold SFltb, SFleb.
  destruct (SFcompare (Prim2SF a) (Prim2SF b)) as [[]|]; congruence.
Qed.

Lemma not_ltb_leb (a b : number) :
  is_nan a = false -> is_nan b = false -> (a <? b)%float = false -> (b <=? a)%float = true.
Proof.
  intros Ha Hb. apply is_nan_false_Prim2SF in Ha, Hb.
  rewrite FloatAxioms.ltb_spec, FloatAxioms.leb_spec. unfold SFltb, SFleb.
  rewrite (SFcompare_antisym (Prim2SF a) (Prim2SF b)).
  destruct (SFcompare (Prim2SF a) (Prim2SF b)) as [[]|] eqn:E; simpl; try congruence.
  apply SFcompare_None in E. tauto.
Qed.

Lemma leb_not_nan (a b : number) :
  (a <=? b)%float = true -> is_nan a = false /\ is_nan b = false.
Proof.
  rewrite FloatAxioms.leb_spec. unfold SFleb. intros H.
  rewrite !is_nan_false_Prim2SF.
  split; intros E; rewrite E in H; simpl in H; try discriminate.
  destruct (Prim2SF a); discriminate.
Qed.

Lemma ltb_not_nan (a b : number) :
  (a <? b)%float = true -> is_nan a = false /\ is_nan b = false.
Proof. intros H. apply leb_not_nan, ltb_leb, H. Qed.

Lemma between_not_infinity (lo v hi : number) :
  is_infinity lo = false -> is_infinity hi = false ->
  (lo <=? v)%float = true -> (v <=? hi)%float = true -> is_infinity v = false.
Proof.
  intros Hlo Hhi H1 H2.
  destruct (is_infinity v) eqn:E; [|reflexivity].
  apply is_infinity_Prim2SF in E as [s E].
  assert (Nlo : forall s, Prim2SF lo <> S754_infinity s).
  { intros s' E'. assert (is_infinity lo = true) by (apply is_infinity_Prim2SF; eauto). congruence. }
  assert (Nhi : forall s, Prim2SF hi <> S754_infinity s).
  { intros s' E'. assert (is_infinity hi = true) by (apply is_infinity_Prim2SF; eauto). congruence. }
  rewrite FloatAxioms.leb_spec in H1, H2. unfold SFleb in *. rewrite E in *.
  destruct (Prim2SF lo) as [sl|sl| |sl ml el], (Prim2SF hi) as [sh|sh| |sh mh eh];
    simpl in *; try discriminate; try (exfalso; eapply Nlo; reflexivity);
    try (exfalso; eapply Nhi; reflexivity); destruct s; discriminate.
Qed.

Lemma signed_zeros_leb (a b : number) :
  is_zero a = true -> is_zero b = true -> (a <=? b)%float = true.
Proof.
  intros [sa Ha]%is_zero_Prim2SF [sb Hb]%is_zero_Prim2SF.
  rewrite FloatAxioms.leb_spec, Ha, Hb. reflexivity.
Qed.

Lemma is_neg_zero_is_zero (v : number) : is_neg_zero v = true -> is_zero v = true.
Proof.
  unfold is_neg_zero. rewrite classify_spec. intros H.
  apply is_zero_Prim2SF. unfold SF64classify, SFclassify in H.
  destruct (Prim2SF v) as [s|s| |s m e]; eauto; try discriminate;
    destruct s; try discriminate;
    destruct (Z.pos (digits2_pos m) =? prec)%Z; discriminate.
Qed.

Lemma is_pos_zero_is_zero (v : number) : is_pos_zero v = true -> is_zero v = true.
Proof.
  unfold is_pos_zero. rewrite classify_spec. intros H.
  apply is_zero_Prim2SF. unfold SF64classify, SFclassify in H.
  destruct (Prim2SF v) as [s|s| |s m e]; eauto; try discriminate;
    destruct s; try discriminate;
    destruct (Z.pos (digits2_pos m) =? prec)%Z; discriminate.
Qed.

(** [v - v] is a zero for a finite [v] and NaN otherwise. *)
Lemma sub_diag_zero_or_nan (v : number) :
  is_zero (v - v)%float = true \/ is_nan (v - v)%float = true.
Proof.
  rewrite is_zero_Prim2SF, is_nan_Prim2SF, sub_spec. unfold SF64sub, SFsub.
  destruct (Prim2SF v) as [s|s| |s m e]; auto.
  - left. destruct s; simpl; eauto.
  - right. destruct s; reflexivity.
  - left. rewrite Z.sub_diag. simpl. eauto.
Qed.

End FloatOrder.

(** ** [Math.max], [Math.min] and [clamp] *)

Section Clamp.

Lemma Math_max_nan (a b : number) :
  (is_nan a || is_nan b)%bool = true -> Math_max a b = nan.
Proof. unfold Math_max. intros ->. reflexivity. Qed.

Lemma Math_min_nan (a b : number) :
  (is_nan a || is_nan b)%bool = true -> Math_min a b = nan.
Proof. unfold Math_min. intros ->. reflexivity. Qed.

Lemma Math_max_spec (a b : number) :
  is_nan a = false -> is_nan b = false ->
  (Math_max a b = a \/ Math_max a b = b) /\
  (a <=? Math_max a b)%float = true /\ (b <=? Math_max a b)%float = true.
Proof.
  intros Ha Hb. unfold Math_max. rewrite Ha, Hb. simpl.
  destruct (a <? b)%float eqn:Hlt.
  - auto using ltb_leb, leb_refl.
  - destruct (is_neg_zero a && is_pos_zero b)%bool eqn:Hz.
    + apply andb_prop in Hz as [Hn Hp].
      apply is_neg_zero_is_zero in Hn. apply is_pos_zero_is_zero in Hp.
      auto using signed_zeros_leb, leb_refl.
    + auto using not_ltb_leb, leb_refl.
Qed.

Lemma Math_min_spec (a b : number) :
  is_nan a = false -> is_nan b = false ->
  (Math_min a b = a \/ Math_min a b = b) /\
  (Math_min a b <=? a)%float = true /\ (Math_min a b <=? b)%float = true.
Proof.
  intros Ha Hb. unfold Math_min. rewrite Ha, Hb. simpl.
  destruct (b <? a)%float eqn:Hlt.
  - auto using ltb_leb, leb_refl.
  - destruct (is_pos_zero a && is_neg_zero b)%bool eqn:Hz.
    + apply andb_prop in Hz as [Hp Hn].
      apply is_neg_zero_is_zero in Hn. apply is_pos_zero_is_zero in Hp.
      auto using signed_zeros_leb, leb_refl.
    + auto using not_ltb_leb, leb_refl.
Qed.

(** [clamp] passes NaN through: nothing in it tests for NaN. *)
Lemma clamp_nan (v lo hi : number) : is_nan v = true -> Utils.clamp v lo hi = nan.
Proof.
  intros H. unfold Utils.clamp.
  rewrite (Math_max_nan v lo) by (rewrite H; reflexivity).
  apply Math_min_nan. reflexivity.
Qed.

(** On any other value it lands between the bounds. *)
Lemma clamp_bounds (v lo hi : number) :
  is_nan v = false -> (lo <=? hi)%float = true ->
  (lo <=? Utils.clamp v lo hi)%float = true /\ (Utils.clamp v lo hi <=? hi)%float = true.
Proof.
  intros Hv Hle. destruct (leb_not_nan _ _ Hle) as [Hlo Hhi].
  unfold Utils.clamp.
  destruct (Math_max_spec v lo Hv Hlo) as (Hm & _ & Hlom).
  assert (Hmn : is_nan (Math_max v lo) = false) by (destruct Hm as [-> | ->]; assumption).
  destruct (Math_min_spec (Math_max v lo) hi Hmn Hhi) as (Hr & _ & Hrhi).
  split; [|assumption].
  destruct Hr as [-> | ->]; assumption.
Qed.

Lemma clamp_is_nan (v lo hi : number) :
  (lo <=? hi)%float = true -> is_nan (Utils.clamp v lo hi) = is_nan v.
Proof.
  intros Hle. destruct (is_nan v) eqn:Hv.
  - rewrite clamp_nan by assumption. reflexivity.
  - destruct (clamp_bounds v lo hi Hv Hle) as [H _].
    apply leb_not_nan in H as [_ H]. exact H.
Qed.

(** A clamped value is NaN or sits in the range, and is never infinite when
    the bounds are finite. *)
Lemma clamp_range (v lo hi : number) :
  (lo <=? hi)%float = true -> is_infinity lo = false -> is_infinity hi = false ->
  (is_nan (Utils.clamp v lo hi) = true \/
   ((lo <=? Utils.clamp v lo hi)%float = true /\ (Utils.clamp v lo hi <=? hi)%float = true)) /\
  is_infinity (Utils.clamp v lo hi) = false.
Proof.
  intros Hle Hlo Hhi. destruct (is_nan v) eqn:Hv.
  - rewrite clamp_nan by assumption. split; [left|]; reflexivity.
  - destruct (clamp_bounds v lo hi Hv Hle) as [H1 H2].
    split; [right; split; assumption|].
    apply (between_not_infinity lo _ hi); assumption.
Qed.

End Clamp.

(** ** The sample engine satisfies the ECMAScript clauses *)

Section SampleEngine.

Lemma zero_facts (v : number) :
  is_zero v = true ->
  is_nan v = false /\ is_infinity v = false /\ abs v = zero /\
  (1 <? v)%float = false /\ (v <? -1)%float = false.
Proof.
  intros [s Hs]%is_zero_Prim2SF. repeat split.
  - apply is_nan_false_Prim2SF. rewrite Hs. discriminate.
  - destruct (is_infinity v) eqn:E; [|reflexivity].
    apply is_infinity_Prim2SF in E as [s' E]. congruence.
  - apply Prim2SF_inj. rewrite abs_spec, Hs. reflexivity.
  - rewrite FloatAxioms.ltb_spec, Hs. reflexivity.
  - rewrite FloatAxioms.ltb_spec, Hs. reflexivity.
Qed.

Lemma scaled_hypot_infinity (a b : number) :
  (is_infinity a || is_infinity b)%bool = true -> scaled_hypot a b = infinity.
Proof. unfold scaled_hypot. intros ->. reflexivity. Qed.

Lemma scaled_hypot_nan (a b : number) :
  (is_infinity a || is_infinity b)%bool = false ->
  (is_nan a || is_nan b)%bool = true -> scaled_hypot a b = nan.
Proof. unfold scaled_hypot. intros -> ->. reflexivity. Qed.

Lemma scaled_hypot_zero (a b : number) :
  (is_zero a && is_zero b)%bool = true -> scaled_hypot a b = zero.
Proof.
  intros [Ha Hb]%andb_prop.
  destruct (zero_facts a Ha) as (Na & Ia & Aa & _).
  destruct (zero_facts b Hb) as (Nb & Ib & Ab & _).
  unfold scaled_hypot. rewrite Na, Nb, Ia, Ib, Aa, Ab. reflexivity.
Qed.

Lemma series_asin_nan : series_asin nan = nan.
Proof. reflexivity. Qed.

Lemma series_asin_above (v : number) : (1 <? v)%float = true -> series_asin v = nan.
Proof. unfold series_asin. intros ->. reflexivity. Qed.

Lemma series_asin_below (v : number) : (v <? -1)%float = true -> series_asin v = nan.
Proof. unfold series_asin. intros ->. destruct (1 <? v)%float; reflexivity. Qed.

Lemma series_asin_zero (v : number) : is_zero v = true -> series_asin v = v.
Proof.
  intros H. destruct (zero_facts v H) as (N & _ & _ & Hab & Hbe).
  unfold series_asin. rewrite Hab, Hbe, N, H. reflexivity.
Qed.

Definition sampleEngine : MathBuiltins :=
  {| Math_hypot := scaled_hypot;
     Math_asin := series_asin;
     hypot_infinity := scaled_hypot_infinity;
     hypot_nan := scaled_hypot_nan;
     hypot_zero := scaled_hypot_zero;
     asin_nan := series_asin_nan;
     asin_above := series_asin_above;
     asin_below := series_asin_below;
     asin_zero := series_asin_zero |}.

(** The synthetic frontal face: eyes at (0.4, 0.5) and (0.6, 0.5), nose at
    (0.5, 0.5), 1280 pixels wide: yaw is a zero and the distance is inside
    the range. *)
Example computeFaceMetrics_frontal :
  exists m,
    Utils.computeFaceMetrics (engine := sampleEngine)
      (sampleFace (Utils.mkLandmark 0.6 0.5 0) (Utils.mkLandmark 0.4 0.5 0)
                  (Utils.mkLandmark 0.5 0.5 0)) 1280 = Some m
    /\ is_zero (Utils.yawDeg m) = true
    /\ (10 <=? Utils.distanceCm m)%float = true
    /\ (Utils.distanceCm m <=? 150)%float = true.
Proof. eexists. vm_compute. repeat split. Qed.

End SampleEngine.

(** ** The metric engine *)

Section MetricEngine.
Context {engine : MathBuiltins}.

(** Two points with the same [x] and the same [y] are at a distance that
    [!] rejects: [+0] when the coordinates are finite, NaN when one of them
    is not. *)
Lemma distance2D_coincident_falsy (a b : Utils.Landmark) :
  Utils.x a = Utils.x b -> Utils.y a = Utils.y b -> falsy (Utils.distance2D a b) = true.
Proof.
  intros Ex Ey. unfold Utils.distance2D, falsy; cbv zeta. rewrite Ex, Ey.
  assert (Inan : forall v, is_nan v = true -> is_infinity v = false)
    by (intros v Hv; rewrite (is_nan_eq _ Hv); reflexivity).
  destruct (sub_diag_zero_or_nan (Utils.x b)) as [Hx | Hx],
           (sub_diag_zero_or_nan (Utils.y b)) as [Hy | Hy].
  - rewrite hypot_zero by (rewrite Hx, Hy; reflexivity). reflexivity.
  - destruct (zero_facts _ Hx) as (_ & Ix & _).
    rewrite hypot_nan; [reflexivity | rewrite Ix, (Inan _ Hy); reflexivity
                       | rewrite Hy; apply orb_true_r].
  - destruct (zero_facts _ Hy) as (_ & Iy & _).
    rewrite hypot_nan; [reflexivity | rewrite (Inan _ Hx), Iy; reflexivity
                       | rewrite Hx; reflexivity].
  - rewrite hypot_nan; [reflexivity | rewrite (Inan _ Hx), (Inan _ Hy); reflexivity
                       | rewrite Hx; reflexivity].
Qed.

(** C2, as the program has it: [computeFaceMetrics] returns none exactly when
    the frame width is a zero or NaN, or one of the three landmarks is
    missing, or the distance between the two eye landmarks is a zero or NaN;
    on every other input it returns a [FaceMetrics] value. *)
Theorem computeFaceMetrics_none_iff (landmarks : Utils.FaceLandmarks) (videoWidth : number) :
  Utils.computeFaceMetrics landmarks videoWidth = None <->
  (is_zero videoWidth = true \/ is_nan videoWidth = true
   \/ landmarks !! Utils.LANDMARK_INDEX_leftEyeOuter = None
   \/ landmarks !! Utils.LANDMARK_INDEX_rightEyeOuter = None
   \/ landmarks !! Utils.LANDMARK_INDEX_noseTip = None
   \/ exists leftEye rightEye,
        landmarks !! Utils.LANDMARK_INDEX_leftEyeOuter = Some leftEye
        /\ landmarks !! Utils.LANDMARK_INDEX_rightEyeOuter = Some rightEye
        /\ (is_zero (Utils.distance2D leftEye rightEye) = true
            \/ is_nan (Utils.distance2D leftEye rightEye) = true)).
Proof.
  unfold Utils.computeFaceMetrics, Utils.getLandmark, falsy.
  destruct (is_zero videoWidth) eqn:Hz; [simpl; tauto|].
  destruct (is_nan videoWidth) eqn:Hn; [simpl; tauto|]. simpl.
  destruct (landmarks !! Utils.LANDMARK_INDEX_leftEyeOuter) as [l|]; [|tauto].
  destruct (landmarks !! Utils.LANDMARK_INDEX_rightEyeOuter) as [r|]; [|tauto].
  destruct (landmarks !! Utils.LANDMARK_INDEX_noseTip) as [n|]; [|tauto].
  cbv zeta.
  destruct (is_zero (Utils.distance2D l r)) eqn:Dz; simpl.
  { split; [|reflexivity]. intros _. do 5 right. exists l, r. auto. }
  destruct (is_nan (Utils.distance2D l r)) eqn:Dn; simpl.
  { split; [|reflexivity]. intros _. do 5 right. exists l, r. auto. }
  split; [discriminate|].
  intros [H|[H|[H|[H|[H|(l' & r' & Hl & Hr & H)]]]]]; try discriminate.
  inversion Hl; inversion Hr; subst. destruct H; congruence.
Qed.

(** C9: when the left-eye-outer and right-eye-outer landmarks coincide in
    the frame (same [x], same [y]), [computeFaceMetrics] returns none,
    whatever the frame width and the other landmarks are; so also for a
    nonzero width with all three landmarks present. *)
Theorem computeFaceMetrics_coincident_eyes
    (landmarks : Utils.FaceLandmarks) (videoWidth : number) (leftEye rightEye : Utils.Landmark) :
  landmarks !! Utils.LANDMARK_INDEX_leftEyeOuter = Some leftEye ->
  landmarks !! Utils.LANDMARK_INDEX_rightEyeOuter = Some rightEye ->
  Utils.x leftEye = Utils.x rightEye ->
  Utils.y leftEye = Utils.y rightEye ->
  Utils.computeFaceMetrics landmarks videoWidth = None.
Proof.
  intros Hl Hr Ex Ey. unfold Utils.computeFaceMetrics, Utils.getLandmark.
  destruct (falsy videoWidth); [reflexivity|].
  rewrite Hl, Hr.
  destruct (landmarks !! Utils.LANDMARK_INDEX_noseTip) as [noseTip|]; [|reflexivity].
  cbv zeta. rewrite (distance2D_coincident_falsy _ _ Ex Ey). reflexivity.
Qed.


End MetricEngine.

(** C2, counterexample: a 1280-pixel frame and a face with all three
    landmarks, the two eye landmarks at the same place: none is returned. *)
Lemma computeFaceMetrics_none_with_all_landmarks :
  is_zero 1280 = false
  /\ is_Some (sampleFace (Utils.mkLandmark 0.5 0.5 0) (Utils.mkLandmark 0.5 0.5 0)
                (Utils.mkLandmark 0.5 0.6 0) !! Utils.LANDMARK_INDEX_leftEyeOuter)
  /\ is_Some (sampleFace (Utils.mkLandmark 0.5 0.5 0) (Utils.mkLandmark 0.5 0.5 0)
                (Utils.mkLandmark 0.5 0.6 0) !! Utils.LANDMARK_INDEX_rightEyeOuter)
  /\ is_Some (sampleFace (Utils.mkLandmark 0.5 0.5 0) (Utils.mkLandmark 0.5 0.5 0)
                (Utils.mkLandmark 0.5 0.6 0) !! Utils.LANDMARK_INDEX_noseTip)
  /\ Utils.computeFaceMetrics (engine := sampleEngine)
       (sampleFace (Utils.mkLandmark 0.5 0.5 0) (Utils.mkLandmark 0.5 0.5 0)
          (Utils.mkLandmark 0.5 0.6 0)) 1280 = None.
Proof. repeat split; try (eexists; reflexivity); reflexivity. Qed.

(** Two eye landmarks at the same place in the frame, at different depths,
    in a 640-pixel frame with the nose tip present. *)
Lemma computeFaceMetrics_coincident_eyes_witness :
  is_zero 640 = false
  /\ sampleFace (Utils.mkLandmark 0.3 0.4 0.01) (Utils.mkLandmark 0.3 0.4 (-0.02))
       (Utils.mkLandmark 0.35 0.5 0) !! Utils.LANDMARK_INDEX_noseTip
     = Some (Utils.mkLandmark 0.35 0.5 0)
  /\ Utils.computeFaceMetrics (engine := sampleEngine)
       (sampleFace (Utils.mkLandmark 0.3 0.4 0.01) (Utils.mkLandmark 0.3 0.4 (-0.02))
          (Utils.mkLandmark 0.35 0.5 0)) 640 = None.
Proof.
  split; [reflexivity|]. split; [reflexivity|].
  apply (computeFaceMetrics_coincident_eyes (engine := sampleEngine) _ _
           (Utils.mkLandmark 0.3 0.4 0.01) (Utils.mkLandmark 0.3 0.4 (-0.02)));
    reflexivity.
Defined.


(** Finite coordinates are not enough either: far outside the frame the
    sums overflow and the yaw ratio is infinity over infinity. *)
Example computeFaceMetrics_nan_yaw_finite_input :
  exists m,
    Utils.computeFaceMetrics (engine := sampleEngine)
      (sampleFace (Utils.mkLandmark 1.7e308 1.7e308 0) (Utils.mkLandmark 1.7e308 (-1.7e308) 0)
         (Utils.mkLandmark 0.5 0.5 0)) 1280 = Some m
    /\ is_nan (Utils.yawDeg m) = true.
Proof. eexists. split; vm_compute; reflexivity. Qed.


(** ** The audio classifier *)

Section AudioClassifier.

(** C3, counterexample: with the audio flag off the classifier is not run;
    a reading above the on-threshold leaves the state at silence. *)
Lemma analyzeAudio_frozen_when_flag_off :
  (IndividualProctor.speechThresholdOn <? 0.06)%float = true
  /\ IndividualProctor.analyzeAudio (mkIndividualFlags false true true true) false 0.06
     = (false, []).
Proof. split; reflexivity. Qed.

(** C3, as the program has it: with the audio flag on, the classifier is a
    two-state hysteresis machine.  From silence it goes to speech (posting
    speech-on) exactly when [rms > 0.05]; from speech it goes to silence
    (posting speech-off) exactly when [rms < 0.025]; otherwise the state
    stays and nothing is posted.  On the readings 0.0, 0.06, 0.03, 0.02 from
    silence: speech at index 1, no change at index 2, silence at index 3.
    With the audio flag off the state never changes. *)
Theorem analyzeAudio_hysteresis (gaze faces gadgets : bool) (rms : number) :
  IndividualProctor.analyzeAudio (mkIndividualFlags true gaze faces gadgets) false rms
  = (if (0.05 <? rms)%float then (true, [speechOn]) else (false, []))
  /\ IndividualProctor.analyzeAudio (mkIndividualFlags true gaze faces gadgets) true rms
     = (if (rms <? 0.025)%float then (false, [speechOff]) else (true, []))
  /\ IndividualProctor.audioTrace (mkIndividualFlags true gaze faces gadgets) false
       [0%float; 0.06%float; 0.03%float; 0.02%float]
     = [(false, []); (true, [speechOn]); (true, []); (false, [speechOff])]
  /\ (forall active,
        IndividualProctor.analyzeAudio (mkIndividualFlags false gaze faces gadgets) active rms
        = (active, [])).
Proof.
  unfold IndividualProctor.analyzeAudio, IndividualProctor.speechThresholdOn,
    IndividualProctor.speechThresholdOff.
  cbn [i_audio negb andb].
  split; [|split; [|split]].
  - destruct (0.05 <? rms)%float; reflexivity.
  - destruct (rms <? 0.025)%float; reflexivity.
  - reflexivity.
  - reflexivity.
Qed.

End AudioClassifier.

(** ** The object detector *)

Section ObjectDetector.

(** C5, counterexample: a laptop seen with confidence 0.9 and a laptop seen
    with confidence 0.36 post the same message; it carries the label and
    no confidence. *)
Lemma runDetector_message_without_confidence :
  IndividualProctor.runDetector App.defaultIndividualFlags
    (Some [IndividualProctor.mkDetection "laptop" 0.9])
  = [mkCandidate "yolo-gadget" cat_gadgets kind_video warn "Gadget detected: laptop"]
  /\ IndividualProctor.runDetector App.defaultIndividualFlags
       (Some [IndividualProctor.mkDetection "laptop" 0.36])
     = [mkCandidate "yolo-gadget" cat_gadgets kind_video warn "Gadget detected: laptop"]
  /\ (0.9 =? 0.36)%float = false.
Proof. repeat split; vm_compute; reflexivity. Qed.

Lemma find_isGadget (detections : list IndividualProctor.Detection) :
  (exists d, d ∈ detections /\ IndividualProctor.isGadget d = true) ->
  exists g before,
    find IndividualProctor.isGadget detections = Some g
    /\ IndividualProctor.isGadget g = true
    /\ before ++ [g] `prefix_of` detections
    /\ Forall (fun d => IndividualProctor.isGadget d = false) before.
Proof.
  induction detections as [|d0 rest IH]; intros (d & Hin & Hd).
  - inversion Hin.
  - simpl. destruct (IndividualProctor.isGadget d0) eqn:E0.
    + exists d0, []. repeat split; auto. exists rest. reflexivity.
    + assert (Hrest : exists d, d ∈ rest /\ IndividualProctor.isGadget d = true).
      { apply elem_of_cons in Hin as [-> | Hin]; [congruence | eauto]. }
      destruct (IH Hrest) as (g & before & Hf & Hg & [tail Hp] & Hall).
      exists g, (d0 :: before). repeat split; auto.
      exists tail. simpl. rewrite Hp. reflexivity.
Qed.

(** C5, as the program has it: with the gadgets flag on, a sample in which
    some detection has a gadget label and confidence at least 0.35 posts a
    yolo-gadget candidate of severity warn.  Its message names the label of
    the first such detection in the detector's order, and nothing else. *)
Theorem runDetector_gadget (flags : IndividualFlags)
    (detections : list IndividualProctor.Detection) :
  i_gadgets flags = true ->
  (exists d, d ∈ detections
             /\ IndividualProctor.label d ∈ IndividualProctor.gadgetLabels
             /\ (0.35 <=? IndividualProctor.score d)%float = true) ->
  exists g before,
    before ++ [g] `prefix_of` detections
    /\ Forall (fun d => IndividualProctor.isGadget d = false) before
    /\ IndividualProctor.label g ∈ IndividualProctor.gadgetLabels
    /\ (0.35 <=? IndividualProctor.score g)%float = true
    /\ gadgetCandidate (IndividualProctor.label g)
       ∈ IndividualProctor.runDetector flags (Some detections)
    /\ forall c, c ∈ IndividualProctor.runDetector flags (Some detections) ->
                 c_category c = cat_gadgets -> c = gadgetCandidate (IndividualProctor.label g).
Proof.
  intros Hflag (d & Hin & Hlabel & Hscore).
  destruct (find_isGadget detections) as (g & before & Hfind & Hg & Hpre & Hall).
  { exists d. split; [assumption|]. unfold IndividualProctor.isGadget.
    rewrite bool_decide_eq_true_2 by assumption. rewrite Hscore. reflexivity. }
  exists g, before.
  unfold IndividualProctor.isGadget in Hg. apply andb_prop in Hg as [Hl Hs].
  apply bool_decide_eq_true_1 in Hl.
  repeat (split; [assumption|]).
  unfold IndividualProctor.runDetector. rewrite Hfind, Hflag.
  split.
  - apply elem_of_app. right. apply list_elem_of_singleton. reflexivity.
  - intros c Hc Hcat. apply elem_of_app in Hc as [Hc | Hc].
    + destruct (_ && _)%bool; [|inversion Hc].
      apply list_elem_of_singleton in Hc. subst c. discriminate.
    + apply list_elem_of_singleton in Hc. exact Hc.
Qed.

(** A sample with a person, a remote below the confidence bar, a phone and
    a television: the phone is the gadget that is reported. *)
Lemma runDetector_gadget_witness :
  exists g before,
    before ++ [g] `prefix_of`
      [IndividualProctor.mkDetection "person" 0.9; IndividualProctor.mkDetection "remote" 0.2;
       IndividualProctor.mkDetection "cell phone" 0.5; IndividualProctor.mkDetection "tv" 0.8]
    /\ Forall (fun d => IndividualProctor.isGadget d = false) before
    /\ IndividualProctor.label g ∈ IndividualProctor.gadgetLabels
    /\ (0.35 <=? IndividualProctor.score g)%float = true
    /\ gadgetCandidate (IndividualProctor.label g)
       ∈ IndividualProctor.runDetector App.defaultIndividualFlags
           (Some [IndividualProctor.mkDetection "person" 0.9;
                  IndividualProctor.mkDetection "remote" 0.2;
                  IndividualProctor.mkDetection "cell phone" 0.5;
                  IndividualProctor.mkDetection "tv" 0.8])
    /\ forall c,
         c ∈ IndividualProctor.runDetector App.defaultIndividualFlags
               (Some [IndividualProctor.mkDetection "person" 0.9;
                      IndividualProctor.mkDetection "remote" 0.2;
                      IndividualProctor.mkDetection "cell phone" 0.5;
                      IndividualProctor.mkDetection "tv" 0.8]) ->
         c_category c = cat_gadgets -> c = gadgetCandidate (IndividualProctor.label g).
Proof.
  apply (runDetector_gadget App.defaultIndividualFlags); [reflexivity|].
  exists (IndividualProctor.mkDetection "cell phone" 0.5).
  split; [|split].
  - apply list_elem_of_In. simpl. auto.
  - apply list_elem_of_In. simpl. auto.
  - reflexivity.
Defined.

(** On that sample the one call is the phone's. *)
Example runDetector_reports_first_gadget :
  IndividualProctor.runDetector App.defaultIndividualFlags
    (Some [IndividualProctor.mkDetection "person" 0.9;
           IndividualProctor.mkDetection "remote" 0.2;
           IndividualProctor.mkDetection "cell phone" 0.5;
           IndividualProctor.mkDetection "tv" 0.8])
  = [gadgetCandidate "cell phone"].
Proof. vm_compute; reflexivity. Qed.

End ObjectDetector.

(** ** The gaze rule *)

Section GazeRule.
Context {engine : MathBuiltins}.

Lemma gazeCalls_app (l1 l2 : list Candidate) : gazeCalls (l1 ++ l2) = gazeCalls l1 ++ gazeCalls l2.
Proof. apply filter_app. Qed.

Lemma analyzeAudio_no_gaze (flags : IndividualFlags) (speechActive : bool) (rms : number) :
  gazeCalls (IndividualProctor.analyzeAudio flags speechActive rms).2 = [].
Proof.
  unfold IndividualProctor.analyzeAudio.
  destruct (i_audio flags); [|reflexivity].
  destruct (negb speechActive && _)%bool; [reflexivity|].
  destruct (speechActive && _)%bool; reflexivity.
Qed.

(** C6: with the gaze flag on and metrics computed for the primary face,
    the gaze candidates of a run are exactly the one candidate "yaw" when
    [|yawDeg| > 35] in individual mode, exactly the one candidate "team-yaw"
    when [|yawDeg| > 40] in team mode, and none otherwise; in particular
    none when [|yawDeg|] equals the threshold. *)
Theorem gaze_candidate_iff_above_threshold
    (iflags : IndividualFlags) (tflags : TeamFlags) (teamLimit now : Z)
    (frame : Frame) (mic : option (list Z))
    (ist : IndividualProctor.State) (tst : TeamProctor.State)
    (primaryFace : Utils.FaceLandmarks) (metrics : Utils.FaceMetrics) :
  i_gaze iflags = true ->
  t_gaze tflags = true ->
  faceLandmarks frame !! 0%nat = Some primaryFace ->
  Utils.computeFaceMetrics primaryFace (videoWidth frame) = Some metrics ->
  gazeCalls (IndividualProctor.analyze iflags (Some frame) mic ist).2
  = (if (35 <? Math_abs (Utils.yawDeg metrics))%float then [yawCandidate] else [])
  /\ gazeCalls (TeamProctor.analyze teamLimit tflags (Some frame) now tst).2
     = (if (40 <? Math_abs (Utils.yawDeg metrics))%float then [teamYawCandidate] else [])
  /\ (Math_abs (Utils.yawDeg metrics) = 35%float ->
      gazeCalls (IndividualProctor.analyze iflags (Some frame) mic ist).2 = [])
  /\ (Math_abs (Utils.yawDeg metrics) = 40%float ->
      gazeCalls (TeamProctor.analyze teamLimit tflags (Some frame) now tst).2 = []).
Proof.
  intros Hi Ht Hface Hm. destruct frame as [faces width]. simpl in Hface, Hm.
  assert (HI : gazeCalls (IndividualProctor.analyze iflags (Some (mkFrame faces width)) mic ist).2
               = if (35 <? Math_abs (Utils.yawDeg metrics))%float then [yawCandidate] else []).
  { unfold IndividualProctor.analyze.
    assert (HV : gazeCalls (IndividualProctor.analyzeVideo iflags (Some (mkFrame faces width)))
                 = if (35 <? Math_abs (Utils.yawDeg metrics))%float then [yawCandidate] else []).
    { unfold IndividualProctor.analyzeVideo. rewrite Hface, Hm, Hi.
      unfold IndividualProctor.GAZE_YAW_THRESHOLD. rewrite !gazeCalls_app.
      destruct (i_faces iflags && _)%bool;
        destruct (_ <? Utils.MIN_FACE_AREA)%float;
        destruct (i_faces iflags);
        destruct (35 <? Math_abs (Utils.yawDeg metrics))%float; reflexivity. }
    destruct mic as [dataArray|]; [|exact HV].
    pose proof (analyzeAudio_no_gaze iflags (IndividualProctor.speechActive ist)
                  (IndividualProctor.computeRms dataArray)) as HA.
    destruct (IndividualProctor.analyzeAudio _ _ _) as [active audioCalls].
    simpl in *. rewrite gazeCalls_app, HV, HA. apply app_nil_r. }
  assert (HT : gazeCalls (TeamProctor.analyze teamLimit tflags (Some (mkFrame faces width)) now tst).2
               = if (40 <? Math_abs (Utils.yawDeg metrics))%float then [teamYawCandidate] else []).
  { unfold TeamProctor.analyze. cbn [snd]. rewrite Hface, Hm, Ht.
    unfold TeamProctor.GAZE_YAW_THRESHOLD. rewrite !gazeCalls_app.
    destruct (t_capacity tflags && _)%bool;
      destruct (t_presence tflags && _ && _)%bool;
      destruct (40 <? Math_abs (Utils.yawDeg metrics))%float; reflexivity. }
  repeat split; try assumption.
  - intros E. rewrite HI, E. reflexivity.
  - intros E. rewrite HT, E. reflexivity.
Qed.

End GazeRule.

(** A head turned far enough for both modes: the nose tip sits at the
    right eye's [x]. *)
Lemma gaze_candidate_witness :
  gazeCalls
    (IndividualProctor.analyze (engine := sampleEngine) App.defaultIndividualFlags
       (Some (mkFrame [sampleFace (Utils.mkLandmark 0.6 0.5 0) (Utils.mkLandmark 0.4 0.5 0)
                         (Utils.mkLandmark 0.6 0.5 0)] 1280))
       None IndividualProctor.initialState).2 = [yawCandidate]
  /\ gazeCalls
       (TeamProctor.analyze (engine := sampleEngine) 3 (mkTeamFlags true true true)
          (Some (mkFrame [sampleFace (Utils.mkLandmark 0.6 0.5 0) (Utils.mkLandmark 0.4 0.5 0)
                            (Utils.mkLandmark 0.6 0.5 0)] 1280))
          1000 (TeamProctor.initialState 0)).2 = [teamYawCandidate].
Proof.
  pose proof
    (fun m Hm =>
       gaze_candidate_iff_above_threshold (engine := sampleEngine)
         App.defaultIndividualFlags (mkTeamFlags true true true) 3 1000
         (mkFrame [sampleFace (Utils.mkLandmark 0.6 0.5 0) (Utils.mkLandmark 0.4 0.5 0)
                     (Utils.mkLandmark 0.6 0.5 0)] 1280)
         None IndividualProctor.initialState (TeamProctor.initialState 0)
         (sampleFace (Utils.mkLandmark 0.6 0.5 0) (Utils.mkLandmark 0.4 0.5 0)
            (Utils.mkLandmark 0.6 0.5 0))
         m eq_refl eq_refl eq_refl Hm) as G.
  edestruct G as (HI & HT & _); [vm_compute; reflexivity|].
  split; [exact HI | exact HT].
Defined.

(** ** The flag gate and the throttle *)

Section Throttle.

(** What the guard of the throttle computes. *)
Lemma throttle_admits_iff (now : Z) (rnd : string) (c : Candidate) (st : App.Store) :
  admitted (App.throttle now rnd c st) = true <->
  (App.lastEventRef st !! c_key c = None
   \/ exists last, App.lastEventRef st !! c_key c = Some last
                   /\ (last = 0 \/ 4000 <= now - last)%Z).
Proof.
  unfold admitted, App.throttle, App.inCooldown, App.cooldownMs.
  destruct (App.lastEventRef st !! c_key c) as [last|]; [|simpl; tauto].
  destruct (Z.eqb_spec last 0) as [E|E], (Z.ltb_spec (now - last) 4000) as [L|L]; simpl;
    split; eauto; try (intros _; right; exists last; split; [reflexivity|lia]);
    try discriminate.
  intros [H | (last' & [= <-] & [H | H])]; [discriminate | contradiction | lia].
Qed.

(** Away from the clock's zero the throttle is the four-second cooldown:
    after an admission at 1, the same key is refused at 1001 and admitted
    again at 4001. *)
Example throttle_cooldown_from_one :
  admitted (App.throttle 1 "a" yawCandidate emptyStore) = true
  /\ admitted (App.throttle 1001 "b" yawCandidate (App.throttle 1 "a" yawCandidate emptyStore).1)
     = false
  /\ admitted (App.throttle 4001 "b" yawCandidate (App.throttle 1 "a" yawCandidate emptyStore).1)
     = true.
Proof. repeat split; vm_compute; reflexivity. Qed.

(** C1, where the program departs from it: "yaw" is admitted at clock
    reading 0, which writes 0 at "yaw" in the table.  At 1000 the guard
    [last && now - last < 4000] reads that 0 as "no entry", so the second
    "yaw" is admitted too, 3000 ms before the cooldown ends. *)
Theorem postEvent_admits_again_after_admission_at_zero :
  admitted (App.postEvent App.individual App.defaultIndividualFlags App.defaultTeamFlags
              0 "a" yawCandidate emptyStore) = true
  /\ App.lastEventRef
       (App.postEvent App.individual App.defaultIndividualFlags App.defaultTeamFlags
          0 "a" yawCandidate emptyStore).1 !! "yaw" = Some 0%Z
  /\ (1000 - 0 <? App.cooldownMs)%Z = true
  /\ (App.postEvent App.individual App.defaultIndividualFlags App.defaultTeamFlags
        1000 "b" yawCandidate
        (App.postEvent App.individual App.defaultIndividualFlags App.defaultTeamFlags
           0 "a" yawCandidate emptyStore).1).2
     = Some {| id := "1000-b"; ts := 1000; message := "Viewer looking away from screen";
               severity := warn; kind := kind_video |}.
Proof. repeat split; vm_compute; reflexivity. Qed.

(** [postEvent] admits when the flag gate lets the category through and the
    key is not cooling down. *)
Lemma admitted_postEvent
    (mode : App.ProctorMode) (iflags : IndividualFlags) (tflags : TeamFlags)
    (now : Z) (rnd : string) (c : Candidate) (st : App.Store) :
  admitted (App.postEvent mode iflags tflags now rnd c st)
  = (App.isFlagEnabled mode iflags tflags (c_category c)
     && negb (App.inCooldown (App.lastEventRef st !! c_key c) now))%bool.
Proof.
  unfold admitted, App.postEvent, App.throttle.
  destruct (App.isFlagEnabled _ _ _ _); [|reflexivity].
  destruct (App.inCooldown _ _); reflexivity.
Qed.

(** C7: posting a candidate with key [k] leaves the entry of every other
    key as it was; a refused candidate (by the flag gate or by the cooldown)
    leaves the whole store, table and event list, unchanged; an admitted one
    writes [now] at [k]; and whether a later candidate with another key is
    admitted does not depend on the post. *)
Theorem postEvent_per_key
    (mode : App.ProctorMode) (iflags : IndividualFlags) (tflags : TeamFlags)
    (now : Z) (rnd : string) (c : Candidate) (st : App.Store) :
  (forall k, k <> c_key c ->
     App.lastEventRef (App.postEvent mode iflags tflags now rnd c st).1 !! k
     = App.lastEventRef st !! k)
  /\ (admitted (App.postEvent mode iflags tflags now rnd c st) = false ->
      (App.postEvent mode iflags tflags now rnd c st).1 = st)
  /\ (admitted (App.postEvent mode iflags tflags now rnd c st) = true ->
      App.lastEventRef (App.postEvent mode iflags tflags now rnd c st).1 !! c_key c = Some now)
  /\ (forall mode' iflags' tflags' now' rnd' c',
        c_key c' <> c_key c ->
        admitted (App.postEvent mode' iflags' tflags' now' rnd' c'
                    (App.postEvent mode iflags tflags now rnd c st).1)
        = admitted (App.postEvent mode' iflags' tflags' now' rnd' c' st)).
Proof.
  assert (Hother : forall k, k <> c_key c ->
            App.lastEventRef (App.postEvent mode iflags tflags now rnd c st).1 !! k
            = App.lastEventRef st !! k).
  { intros k Hk. unfold App.postEvent, App.throttle.
    destruct (negb _); [reflexivity|].
    destruct (App.inCooldown _ _); [reflexivity|].
    simpl. apply lookup_insert_ne. congruence. }
  split; [exact Hother|]. split; [|split].
  - unfold admitted, App.postEvent, App.throttle.
    destruct (negb _); [reflexivity|].
    destruct (App.inCooldown _ _); [reflexivity|discriminate].
  - unfold admitted, App.postEvent, App.throttle.
    destruct (negb _); [discriminate|].
    destruct (App.inCooldown _ _); [discriminate|].
    intros _. simpl. apply lookup_insert_eq.
  - intros mode' iflags' tflags' now' rnd' c' Hk.
    rewrite !admitted_postEvent, (Hother _ Hk). reflexivity.
Qed.

(** No-face and multi-face in one frame: both are admitted. *)
Example no_face_then_multi_face :
  admitted (App.postEvent App.individual App.defaultIndividualFlags App.defaultTeamFlags 5000 "b"
              (mkCandidate "multi-face" cat_faces kind_video warn "Multiple faces detected")
              (App.postEvent App.individual App.defaultIndividualFlags App.defaultTeamFlags
                 5000 "a"
                 (mkCandidate "no-face" cat_faces kind_video warn "No face detected")
                 emptyStore).1) = true.
Proof. vm_compute; reflexivity. Qed.

(** C10: a category without an entry in the active mode's flag object is
    enabled whatever the flags are, and [postEvent] then is the throttle
    alone.  That is the case of [system] in both modes, of [capacity] and
    [presence] in individual mode, and of [audio], [faces] and [gadgets] in
    team mode. *)
Theorem isFlagEnabled_default_true :
  (forall mode iflags tflags category,
     match mode with
     | App.individual => App.individualFlag iflags category
     | App.team => App.teamFlag tflags category
     end = None ->
     App.isFlagEnabled mode iflags tflags category = true
     /\ forall now rnd c st,
          c_category c = category ->
          App.postEvent mode iflags tflags now rnd c st = App.throttle now rnd c st)
  /\ (forall mode iflags tflags, App.isFlagEnabled mode iflags tflags cat_system = true)
  /\ (forall iflags tflags,
        App.isFlagEnabled App.individual iflags tflags cat_capacity = true
        /\ App.isFlagEnabled App.individual iflags tflags cat_presence = true)
  /\ (forall iflags tflags,
        App.isFlagEnabled App.team iflags tflags cat_audio = true
        /\ App.isFlagEnabled App.team iflags tflags cat_faces = true
        /\ App.isFlagEnabled App.team iflags tflags cat_gadgets = true).
Proof.
  split; [|split; [|split]].
  - intros mode iflags tflags category H.
    assert (E : App.isFlagEnabled mode iflags tflags category = true).
    { unfold App.isFlagEnabled. destruct mode; rewrite H; reflexivity. }
    split; [exact E|].
    intros now rnd c st <-. unfold App.postEvent. rewrite E. reflexivity.
  - intros [] iflags tflags; reflexivity.
  - intros iflags tflags. split; reflexivity.
  - intros iflags tflags. repeat split; reflexivity.
Qed.

End Throttle.

(** ** Mode switches *)

Section ModeSwitch.
Context {engine : MathBuiltins}.

Lemma postAll_calls mode iflags tflags now rnd calls st :
  (App.postAll mode iflags tflags now rnd calls st).2.*1 = calls.
Proof.
  revert st. induction calls as [|c rest IH]; intros st; simpl; [reflexivity|].
  destruct (App.postEvent _ _ _ _ _ c st) as [st1 sent].
  specialize (IH st1). destruct (App.postAll _ _ _ _ _ rest st1) as [st2 log].
  simpl in *. f_equal. exact IH.
Qed.

Lemma emit_spec app ch now rnd calls :
  App.child (App.emit app ch now rnd calls).1 = ch
  /\ App.mode (App.emit app ch now rnd calls).1 = App.mode app
  /\ (App.emit app ch now rnd calls).2.*1 = calls.
Proof.
  unfold App.emit.
  pose proof (postAll_calls (App.mode app) (App.individualFlags app) (App.teamFlags app)
                now rnd calls (App.store app)) as H.
  destruct (App.postAll _ _ _ _ _ _ _) as [st log]. simpl in *. auto.
Qed.

Lemma audioCalls_emit app ch now rnd calls :
  audioCalls (App.emit app ch now rnd calls).2 = filter (fun c => c_category c = cat_audio) calls.
Proof.
  unfold audioCalls. destruct (emit_spec app ch now rnd calls) as (_ & _ & ->). reflexivity.
Qed.

Lemma audioCalls_app l1 l2 : audioCalls (l1 ++ l2) = audioCalls l1 ++ audioCalls l2.
Proof. unfold audioCalls. rewrite fmap_app. apply filter_app. Qed.

Lemma analyzeVideo_no_audio flags frame :
  filter (fun c => c_category c = cat_audio) (IndividualProctor.analyzeVideo flags frame) = [].
Proof.
  unfold IndividualProctor.analyzeVideo.
  destruct frame as [[faces width]|]; [|reflexivity].
  rewrite filter_app.
  destruct (i_faces flags && _)%bool;
    (destruct (faces !! 0%nat) as [pf|];
     [ rewrite filter_app;
       destruct (_ <? Utils.MIN_FACE_AREA)%float; destruct (i_faces flags);
       (destruct (Utils.computeFaceMetrics pf width) as [m|];
        [destruct (i_gaze flags && _)%bool|]); reflexivity
     | destruct (i_faces flags); reflexivity ]).
Qed.

Lemma runDetector_no_audio flags sample :
  filter (fun c => c_category c = cat_audio) (IndividualProctor.runDetector flags sample) = [].
Proof.
  unfold IndividualProctor.runDetector. destruct sample as [detections|]; [|reflexivity].
  rewrite filter_app.
  destruct (i_faces flags && _)%bool;
    (destruct (find IndividualProctor.isGadget detections);
     [destruct (i_gadgets flags)|]); reflexivity.
Qed.

Lemma team_analyze_no_audio limit flags frame now st :
  filter (fun c => c_category c = cat_audio) (TeamProctor.analyze limit flags frame now st).2 = [].
Proof.
  unfold TeamProctor.analyze. destruct frame as [[faces width]|]; [|reflexivity].
  cbn [snd]. rewrite !filter_app.
  destruct (t_capacity flags && _)%bool;
    destruct (t_presence flags && _ && _)%bool;
    (destruct (faces !! 0%nat) as [pf|];
     [ destruct (Utils.computeFaceMetrics pf width) as [m|];
       [destruct (t_gaze flags && _)%bool|] |]); reflexivity.
Qed.

(** One step from a silent state posts no audio candidate and stays
    silent, or posts speech-on alone. *)
Lemma step_silent app a :
  silent app ->
  (audioCalls (App.step app a).2 = [] /\ silent (App.step app a).1)
  \/ audioCalls (App.step app a).2 = [speechOn].
Proof.
  intros Hs. destruct a as [next now| | | | |granted now rnd|frame mic now rnd|sample now rnd];
    simpl; try (left; split; [reflexivity | exact Hs]).
  - left. split; [reflexivity|]. unfold App.setMode.
    destruct (bool_decide _); [exact Hs|]. destruct next; reflexivity.
  - left. unfold silent in *.
    destruct (App.child app) as [s|s] eqn:Ech; rewrite audioCalls_emit;
      (split; [destruct granted; reflexivity|]);
      destruct (emit_spec app (App.child app) now rnd
                  (IndividualProctor.startStreams granted)) as (E1 & _),
               (emit_spec app (App.child app) now rnd
                  (TeamProctor.startStream granted)) as (E2 & _);
      rewrite Ech in *; first [rewrite E1 | rewrite E2]; exact Hs.
  - unfold silent in *. destruct (App.child app) as [s|s] eqn:Ech.
    + unfold IndividualProctor.analyze.
      destruct mic as [dataArray|].
      * unfold IndividualProctor.analyzeAudio. rewrite Hs. cbn [negb andb].
        destruct (i_audio (App.individualFlags app));
          [destruct (_ <? _)%float|]; rewrite audioCalls_emit, filter_app, analyzeVideo_no_audio.
        -- right. reflexivity.
        -- left. split; [reflexivity|].
           destruct (emit_spec app (App.IndividualMounted {| IndividualProctor.speechActive := false |})
                       now rnd
                       (IndividualProctor.analyzeVideo (App.individualFlags app) frame ++ []))
             as (-> & _). reflexivity.
        -- left. split; [reflexivity|].
           destruct (emit_spec app (App.IndividualMounted {| IndividualProctor.speechActive := false |})
                       now rnd
                       (IndividualProctor.analyzeVideo (App.individualFlags app) frame ++ []))
             as (-> & _). reflexivity.
      * rewrite audioCalls_emit, analyzeVideo_no_audio. left. split; [reflexivity|].
        destruct (emit_spec app (App.IndividualMounted s) now rnd
                    (IndividualProctor.analyzeVideo (App.individualFlags app) frame))
          as (-> & _). exact Hs.
    + pose proof (team_analyze_no_audio (App.teamLimit app) (App.teamFlags app) frame now s) as Hn.
      destruct (TeamProctor.analyze _ _ _ _ _) as [s' calls]. simpl in Hn.
      rewrite audioCalls_emit, Hn. left. split; [reflexivity|].
      destruct (emit_spec app (App.TeamMounted s') now rnd calls) as (-> & _). exact I.
  - unfold silent in *. destruct (App.child app) as [s|s] eqn:Ech.
    + rewrite audioCalls_emit, runDetector_no_audio. left. split; [reflexivity|].
      destruct (emit_spec app (App.child app) now rnd
                  (IndividualProctor.runDetector (App.individualFlags app) sample))
        as (E & _). rewrite Ech in E. rewrite E. exact Hs.
    + left. split; [reflexivity|]. cbn [fst]. rewrite Ech. exact I.
Qed.

(** From a silent state, the first audio candidate of any session, if
    there is one, is speech-on. *)
Lemma run_silent actions : forall app,
  silent app ->
  head (audioCalls (App.run app actions).2) = None
  \/ head (audioCalls (App.run app actions).2) = Some speechOn.
Proof.
  induction actions as [|a rest IH]; intros app Hs; simpl; [left; reflexivity|].
  pose proof (step_silent app a Hs) as Hstep.
  destruct (App.step app a) as [app1 log1]. simpl in Hstep.
  specialize (IH app1).
  destruct (App.run app1 rest) as [app2 log2]. simpl in *.
  rewrite audioCalls_app.
  destruct Hstep as [[-> Hs1] | ->]; [exact (IH Hs1) | right; reflexivity].
Qed.

(** While the mounted proctor is the team one, a step posts no audio
    candidate, and only a switch to individual mode unmounts it. *)
Lemma run_team actions : forall app s,
  App.mode app = App.team -> App.child app = App.TeamMounted s ->
  Forall noSwitchToIndividual actions ->
  audioCalls (App.run app actions).2 = [].
Proof.
  induction actions as [|a rest IH]; intros app s Hm Hc Hall; simpl; [reflexivity|].
  apply Forall_cons in Hall as [Ha Hrest].
  assert (Hstep : audioCalls (App.step app a).2 = []
                  /\ App.mode (App.step app a).1 = App.team
                  /\ exists s', App.child (App.step app a).1 = App.TeamMounted s').
  { destruct a as [next now| | | | |granted now rnd|frame mic now rnd|sample now rnd]; simpl;
      try (split; [reflexivity|]; split; [exact Hm | eauto]).
    - destruct next; [contradiction|]. unfold App.setMode. rewrite Hm.
      rewrite bool_decide_eq_true_2 by reflexivity. split; [reflexivity|]. eauto.
    - rewrite Hc, audioCalls_emit.
      destruct (emit_spec app (App.TeamMounted s) now rnd (TeamProctor.startStream granted))
        as (-> & -> & _).
      split; [destruct granted; reflexivity|]. eauto.
    - rewrite Hc.
      pose proof (team_analyze_no_audio (App.teamLimit app) (App.teamFlags app) frame now s) as Hn.
      destruct (TeamProctor.analyze _ _ _ _ _) as [s' calls]. simpl in Hn.
      rewrite audioCalls_emit, Hn.
      destruct (emit_spec app (App.TeamMounted s') now rnd calls) as (-> & -> & _). eauto.
    - rewrite Hc. split; [reflexivity|]. eauto. }
  destruct (App.step app a) as [app1 log1]. simpl in Hstep.
  destruct Hstep as (Hlog & Hm1 & s' & Hc1).
  specialize (IH app1 s' Hm1 Hc1 Hrest).
  destruct (App.run app1 rest) as [app2 log2]. simpl in *.
  rewrite audioCalls_app, Hlog, IH. reflexivity.
Qed.

(** C8: an individual proctor is mounted, in whatever speech state, and
    the mode is switched to team.  The individual proctor's state is gone
    (the team proctor is mounted with its own fresh state); as long as the
    session stays in team mode no audio candidate, so no speech-off, is
    posted; after a switch back, speech starts over as false; and in every
    continuation of the session the first audio candidate, if there is one,
    is speech-on: speech-off never comes without a speech-on after the
    switch. *)
Theorem mode_switch_resets_speech
    (limit : Z) (iflags : IndividualFlags) (tflags : TeamFlags) (st : App.Store)
    (s : IndividualProctor.State) (now : Z) (actions : list App.Action) :
  App.child (App.setMode App.team now
               (App.mkAppState App.individual limit iflags tflags st (App.IndividualMounted s)))
  = App.TeamMounted (TeamProctor.initialState now)
  /\ (Forall noSwitchToIndividual actions ->
      audioCalls
        (App.run
           (App.setMode App.team now
              (App.mkAppState App.individual limit iflags tflags st (App.IndividualMounted s)))
           actions).2 = [])
  /\ (forall now',
        App.child
          (App.setMode App.individual now'
             (App.setMode App.team now
                (App.mkAppState App.individual limit iflags tflags st (App.IndividualMounted s))))
        = App.IndividualMounted {| IndividualProctor.speechActive := false |})
  /\ head (audioCalls
             (App.run
                (App.setMode App.team now
                   (App.mkAppState App.individual limit iflags tflags st
                      (App.IndividualMounted s)))
                actions).2) <> Some speechOff.
Proof.
  split; [reflexivity|]. split; [|split].
  - intros Hall. eapply run_team; [reflexivity | reflexivity | exact Hall].
  - intros now'. reflexivity.
  - destruct (run_silent actions
                (App.setMode App.team now
                   (App.mkAppState App.individual limit iflags tflags st
                      (App.IndividualMounted s)))) as [H | H];
      [exact I | rewrite H; discriminate | rewrite H; discriminate].
Qed.

End ModeSwitch.

(** Without the switch the speech state carries over: the same silent
    window posts speech-off in a proctor that was in speech. *)
Example speech_off_without_switch :
  audioCalls
    (App.run (engine := sampleEngine)
       (App.mkAppState App.individual 3 App.defaultIndividualFlags App.defaultTeamFlags
          emptyStore (App.IndividualMounted {| IndividualProctor.speechActive := true |}))
       [App.AnalyzeTick None (Some (replicate 1024 128%Z)) 9000 "c"]).2 = [speechOff].
Proof. vm_compute; reflexivity. Qed.

(** ** Two sessions end to end *)

Section Scenarios.

(** Individual mode, faces flag on, three consecutive frames without a
    face: no-face is admitted on the first frame and refused on the next
    two. *)
Example three_frames_without_face :
  map (fun entry => (c_key entry.1, bool_decide (is_Some entry.2)))
    (App.run (engine := sampleEngine) App.initialApp
       [App.AnalyzeTick (Some (mkFrame [] 1280)) None 100000 "a";
        App.AnalyzeTick (Some (mkFrame [] 1280)) None 100016 "b";
        App.AnalyzeTick (Some (mkFrame [] 1280)) None 100033 "c"]).2
  = [("no-face", true); ("no-face", false); ("no-face", false)].
Proof. vm_compute; reflexivity. Qed.

(** Team mode, limit 3, capacity flag on, five faces in the frame: the
    overflow is admitted with its count and limit, refused 500 ms later and
    admitted again 4000 ms after the first. *)
Example team_overflow_session :
  map (fun entry => (c_message entry.1, bool_decide (is_Some entry.2)))
    (App.run (engine := sampleEngine) App.initialApp
       [App.SetMode App.team 200000;
        App.AnalyzeTick (Some (mkFrame (replicate 5 []) 1280)) None 200100 "a";
        App.AnalyzeTick (Some (mkFrame (replicate 5 []) 1280)) None 200600 "b";
        App.AnalyzeTick (Some (mkFrame (replicate 5 []) 1280)) None 204100 "c"]).2
  = [("5 people detected (limit 3)", true);
     ("5 people detected (limit 3)", false);
     ("5 people detected (limit 3)", true)].
Proof. vm_compute; reflexivity. Qed.

End Scenarios.

(** * Further properties *)

(** ** More binary64 order facts *)

Section MoreFloatOrder.

Lemma eqb_refl_number (v : number) : is_nan v = false -> (v =? v)%float = true.
Proof. unfold is_nan. destruct (v =? v)%float; [reflexivity|discriminate]. Qed.

Lemma zeros_eqb (a b : number) : is_zero a = true -> is_zero b = true -> (a =? b)%float = true.
Proof.
  intros [sa Ha]%is_zero_Prim2SF [sb Hb]%is_zero_Prim2SF.
  rewrite FloatAxioms.eqb_spec, Ha, Hb. reflexivity.
Qed.

Lemma leb_ltb_false (a b : number) : (a <=? b)%float = true -> (b <? a)%float = false.
Proof.
  rewrite FloatAxioms.ltb_spec, FloatAxioms.leb_spec. unfold SFltb, SFleb.
  rewrite (SFcompare_antisym (Prim2SF a) (Prim2SF b)).
  destruct (SFcompare (Prim2SF a) (Prim2SF b)) as [[]|]; simpl; congruence.
Qed.

Lemma SFleb_trans (a b c : spec_float) :
  SFleb a b = true -> SFleb b c = true -> SFleb a c = true.
Proof.
  unfold SFleb.
  destruct a as [sa|sa| |sa ma ea], b as [sb|sb| |sb mb eb], c as [sc|sc| |sc mc ec];
    simpl; try discriminate; try reflexivity;
    repeat match goal with s : bool |- _ => destruct s end;
    simpl; try discriminate; try reflexivity.
  all: change (PosDef.Pos.compare_cont Eq) with Pos.compare.
  all: destruct (Z.compare_spec ea eb), (Z.compare_spec eb ec), (Z.compare_spec ea ec);
    try discriminate; try reflexivity; try lia; subst.
  all: destruct (Pos.compare_spec ma mb), (Pos.compare_spec mb mc), (Pos.compare_spec ma mc);
    simpl; try discriminate; try reflexivity; try lia.
Qed.

Lemma SFltb_leb_trans (a b c : spec_float) :
  SFltb a b = true -> SFleb b c = true -> SFltb a c = true.
Proof.
  unfold SFleb, SFltb.
  destruct a as [sa|sa| |sa ma ea], b as [sb|sb| |sb mb eb], c as [sc|sc| |sc mc ec];
    simpl; try discriminate; try reflexivity;
    repeat match goal with s : bool |- _ => destruct s end;
    simpl; try discriminate; try reflexivity.
  all: change (PosDef.Pos.compare_cont Eq) with Pos.compare.
  all: destruct (Z.compare_spec ea eb), (Z.compare_spec eb ec), (Z.compare_spec ea ec);
    try discriminate; try reflexivity; try lia; subst.
  all: destruct (Pos.compare_spec ma mb), (Pos.compare_spec mb mc), (Pos.compare_spec ma mc);
    simpl; try discriminate; try reflexivity; try lia.
Qed.

Lemma ltb_leb_trans (a b c : number) :
  (a <? b)%float = true -> (b <=? c)%float = true -> (a <? c)%float = true.
Proof. rewrite !FloatAxioms.ltb_spec, FloatAxioms.leb_spec. apply SFltb_leb_trans. Qed.

Lemma leb_trans (a b c : number) :
  (a <=? b)%float = true -> (b <=? c)%float = true -> (a <=? c)%float = true.
Proof. rewrite !FloatAxioms.leb_spec. apply SFleb_trans. Qed.

End MoreFloatOrder.

Section ClampSpec.

Lemma Math_max_cases (a b : number) :
  is_nan a = false -> is_nan b = false ->
  ((a <? b)%float = true /\ Math_max a b = b)
  \/ ((a <? b)%float = false /\ is_zero a = true /\ is_zero b = true /\ Math_max a b = b)
  \/ ((a <? b)%float = false /\ Math_max a b = a).
Proof.
  intros Ha Hb. unfold Math_max. rewrite Ha, Hb. simpl.
  destruct (a <? b)%float; [auto|].
  destruct (is_neg_zero a && is_pos_zero b)%bool eqn:Hz; [|auto].
  apply andb_prop in Hz as [Hn Hp].
  right. left. auto using is_neg_zero_is_zero, is_pos_zero_is_zero.
Qed.

Lemma Math_min_cases (a b : number) :
  is_nan a = false -> is_nan b = false ->
  ((b <? a)%float = true /\ Math_min a b = b)
  \/ ((b <? a)%float = false /\ is_zero a = true /\ is_zero b = true /\ Math_min a b = b)
  \/ ((b <? a)%float = false /\ Math_min a b = a).
Proof.
  intros Ha Hb. unfold Math_min. rewrite Ha, Hb. simpl.
  destruct (b <? a)%float; [auto|].
  destruct (is_pos_zero a && is_neg_zero b)%bool eqn:Hz; [|auto].
  apply andb_prop in Hz as [Hp Hn].
  right. left. auto using is_neg_zero_is_zero, is_pos_zero_is_zero.
Qed.

(** X1: for bounds [lo <= hi], [clamp] returns NaN exactly on NaN and
    otherwise a value between the bounds; a value already between them comes
    back numerically unchanged, one below comes back as [lo], one above as
    [hi]; clamping twice is clamping once. *)
Theorem clamp_between_ordered_bounds (v lo hi : number) :
  (lo <=? hi)%float = true ->
  is_nan (Utils.clamp v lo hi) = is_nan v
  /\ (is_nan v = false ->
      (lo <=? Utils.clamp v lo hi)%float = true /\ (Utils.clamp v lo hi <=? hi)%float = true)
  /\ ((lo <=? v)%float = true -> (v <=? hi)%float = true ->
      (Utils.clamp v lo hi =? v)%float = true)
  /\ ((v <? lo)%float = true -> (Utils.clamp v lo hi =? lo)%float = true)
  /\ ((hi <? v)%float = true -> (Utils.clamp v lo hi =? hi)%float = true)
  /\ (Utils.clamp (Utils.clamp v lo hi) lo hi =? Utils.clamp v lo hi)%float = negb (is_nan v).
Proof.
  intros Hle. destruct (leb_not_nan _ _ Hle) as [Nlo Nhi].
  assert (Hin : forall w, (lo <=? w)%float = true -> (w <=? hi)%float = true ->
                          (Utils.clamp w lo hi =? w)%float = true).
  { intros w H1 H2. destruct (leb_not_nan _ _ H1) as [_ Nw].
    unfold Utils.clamp.
    pose proof (leb_ltb_false _ _ H1) as L1.
    destruct (Math_max_cases w lo Nw Nlo) as [[C _] | [(_ & Zw & Zl & ->) | (_ & ->)]];
      [congruence | |].
    - pose proof (leb_ltb_false _ _ Hle) as L2.
      destruct (Math_min_cases lo hi Nlo Nhi) as [[C _] | [(_ & _ & Zh & ->) | (_ & ->)]];
        [congruence | |]; auto using zeros_eqb.
    - pose proof (leb_ltb_false _ _ H2) as L2.
      destruct (Math_min_cases w hi Nw Nhi) as [[C _] | [(_ & Zw & Zh & ->) | (_ & ->)]];
        [congruence | |]; auto using zeros_eqb, eqb_refl_number. }
  split; [apply clamp_is_nan; exact Hle|].
  split; [intros Nv; apply clamp_bounds; assumption|].
  split; [exact (Hin v)|].
  split; [|split].
  - intros Hlt. destruct (ltb_not_nan _ _ Hlt) as [Nv _]. unfold Utils.clamp.
    destruct (Math_max_cases v lo Nv Nlo) as [[_ ->] | [(C & _) | (C & _)]];
      [|congruence|congruence].
    pose proof (leb_ltb_false _ _ Hle) as L2.
    destruct (Math_min_cases lo hi Nlo Nhi) as [[C _] | [(_ & Zl & Zh & ->) | (_ & ->)]];
      [congruence | |]; auto using zeros_eqb, eqb_refl_number.
  - intros Hlt. destruct (ltb_not_nan _ _ Hlt) as [_ Nv]. unfold Utils.clamp.
    assert (Hm : (hi <? Math_max v lo)%float = true).
    { destruct (Math_max_spec v lo Nv Nlo) as (_ & Hv & _).
      exact (ltb_leb_trans _ _ _ Hlt Hv). }
    destruct (ltb_not_nan _ _ Hm) as [_ Nm].
    destruct (Math_min_cases (Math_max v lo) hi Nm Nhi) as [[_ ->] | [(C & _) | (C & _)]];
      [|congruence|congruence].
    apply eqb_refl_number. exact Nhi.
  - destruct (is_nan v) eqn:Nv; simpl.
    + rewrite !clamp_nan by (try assumption; rewrite ?clamp_nan by assumption; reflexivity).
      reflexivity.
    + destruct (clamp_bounds v lo hi Nv Hle) as [H1 H2]. apply Hin; assumption.
Qed.

End ClampSpec.

Section FaceArea.

Lemma binary_round_aux_cases (s : bool) (m e : Z) (l : location) :
  binary_round_aux prec emax s m e l = S754_nan
  \/ binary_round_aux prec emax s m e l = S754_zero s
  \/ binary_round_aux prec emax s m e l = S754_infinity s
  \/ exists m' e', binary_round_aux prec emax s m e l = S754_finite s m' e'.
Proof.
  unfold binary_round_aux.
  destruct (shr_fexp prec emax m e l) as [mrs' e'].
  destruct (shr_fexp prec emax _ e' loc_Exact) as [mrs'' e''].
  destruct (shr_m mrs''); [auto | | auto].
  destruct (Z.leb e'' (emax - prec)); eauto 6.
Qed.

Lemma mul_nan (a b : number) :
  (is_nan a || is_nan b)%bool = true -> is_nan (a * b)%float = true.
Proof.
  intros H. apply is_nan_Prim2SF. rewrite mul_spec.
  apply orb_true_iff in H as [H | H]; apply is_nan_Prim2SF in H; rewrite H;
    [reflexivity | destruct (Prim2SF a); reflexivity].
Qed.

Lemma sub_nan (a b : number) :
  (is_nan a || is_nan b)%bool = true -> is_nan (a - b)%float = true.
Proof.
  intros H. apply is_nan_Prim2SF. rewrite sub_spec.
  apply orb_true_iff in H as [H | H]; apply is_nan_Prim2SF in H; rewrite H;
    [reflexivity | destruct (Prim2SF a); reflexivity].
Qed.

Lemma mul_nonnegative (a b : number) :
  (0 <=? a)%float = true -> (0 <=? b)%float = true ->
  is_nan (a * b)%float = true \/ (0 <=? a * b)%float = true.
Proof.
  rewrite is_nan_Prim2SF, !FloatAxioms.leb_spec, mul_spec.
  change (Prim2SF 0) with (S754_zero false). unfold SF64mul, SFmul, SFleb.
  destruct (Prim2SF a) as [sa|sa| |sa ma ea], (Prim2SF b) as [sb|sb| |sb mb eb];
    simpl; try discriminate; auto;
    try (destruct sa; try discriminate); try (destruct sb; try discriminate);
    simpl; auto.
  intros _ _.
  destruct (binary_round_aux_cases false (Z.pos (ma * mb)) (ea + eb) loc_Exact)
    as [-> | [-> | [-> | (m' & e' & ->)]]]; auto.
Qed.

Definition foldMin (f : Utils.Landmark -> number) (landmarks : Utils.FaceLandmarks)
    (seed : number) : number :=
  fold_left (fun acc lm => Math_min acc (f lm)) landmarks seed.

Definition foldMax (f : Utils.Landmark -> number) (landmarks : Utils.FaceLandmarks)
    (seed : number) : number :=
  fold_left (fun acc lm => Math_max acc (f lm)) landmarks seed.

Lemma faceBounds_fold_seeds (landmarks : Utils.FaceLandmarks) : forall a b c d : number,
  fold_left
    (fun '(minX, maxX, minY, maxY) lm =>
       (Math_min minX (Utils.x lm), Math_max maxX (Utils.x lm),
        Math_min minY (Utils.y lm), Math_max maxY (Utils.y lm)))
    landmarks (a, b, c, d)
  = (foldMin Utils.x landmarks a, foldMax Utils.x landmarks b,
     foldMin Utils.y landmarks c, foldMax Utils.y landmarks d).
Proof.
  unfold foldMin, foldMax.
  induction landmarks as [|lm rest IH]; intros a b c d; simpl; [reflexivity|].
  apply IH.
Qed.

Lemma faceBounds_fold (landmarks : Utils.FaceLandmarks) :
  Utils.faceBounds landmarks
  = (foldMin Utils.x landmarks 1, foldMax Utils.x landmarks 0,
     foldMin Utils.y landmarks 1, foldMax Utils.y landmarks 0).
Proof. apply faceBounds_fold_seeds. Qed.

Lemma foldMin_nan f landmarks seed :
  is_nan seed = true -> is_nan (foldMin f landmarks seed) = true.
Proof.
  revert seed. induction landmarks as [|lm rest IH]; intros seed H; simpl; [exact H|].
  apply IH. rewrite Math_min_nan by (rewrite H; reflexivity). reflexivity.
Qed.

Lemma foldMax_nan f landmarks seed :
  is_nan seed = true -> is_nan (foldMax f landmarks seed) = true.
Proof.
  revert seed. induction landmarks as [|lm rest IH]; intros seed H; simpl; [exact H|].
  apply IH. rewrite Math_max_nan by (rewrite H; reflexivity). reflexivity.
Qed.

Lemma foldMin_exists_nan f landmarks seed :
  Exists (fun lm => is_nan (f lm) = true) landmarks ->
  is_nan (foldMin f landmarks seed) = true.
Proof.
  intros H. revert seed. induction H as [lm rest H | lm rest _ IH]; intros seed; simpl.
  - apply foldMin_nan. rewrite Math_min_nan by (rewrite H; apply orb_true_r). reflexivity.
  - apply IH.
Qed.

Lemma foldMax_exists_nan f landmarks seed :
  Exists (fun lm => is_nan (f lm) = true) landmarks ->
  is_nan (foldMax f landmarks seed) = true.
Proof.
  intros H. revert seed. induction H as [lm rest H | lm rest _ IH]; intros seed; simpl.
  - apply foldMax_nan. rewrite Math_max_nan by (rewrite H; apply orb_true_r). reflexivity.
  - apply IH.
Qed.

Lemma foldMin_lower f landmarks : forall seed,
  is_nan seed = false ->
  Forall (fun lm => is_nan (f lm) = false) landmarks ->
  (foldMin f landmarks seed <=? seed)%float = true
  /\ Forall (fun lm => (foldMin f landmarks seed <=? f lm)%float = true) landmarks.
Proof.
  induction landmarks as [|lm rest IH]; intros seed Hs Hall; simpl.
  - split; [apply leb_refl; exact Hs | constructor].
  - apply Forall_cons in Hall as [Hlm Hrest].
    destruct (Math_min_spec seed (f lm) Hs Hlm) as (Hc & H1 & H2).
    assert (Hn : is_nan (Math_min seed (f lm)) = false) by (destruct Hc as [-> | ->]; assumption).
    destruct (IH _ Hn Hrest) as [Hle Hfa].
    split; [eapply leb_trans; eassumption|].
    constructor; [eapply leb_trans; eassumption | exact Hfa].
Qed.

Lemma foldMax_upper f landmarks : forall seed,
  is_nan seed = false ->
  Forall (fun lm => is_nan (f lm) = false) landmarks ->
  (seed <=? foldMax f landmarks seed)%float = true
  /\ Forall (fun lm => (f lm <=? foldMax f landmarks seed)%float = true) landmarks.
Proof.
  induction landmarks as [|lm rest IH]; intros seed Hs Hall; simpl.
  - split; [apply leb_refl; exact Hs | constructor].
  - apply Forall_cons in Hall as [Hlm Hrest].
    destruct (Math_max_spec seed (f lm) Hs Hlm) as (Hc & H1 & H2).
    assert (Hn : is_nan (Math_max seed (f lm)) = false) by (destruct Hc as [-> | ->]; assumption).
    destruct (IH _ Hn Hrest) as [Hle Hfa].
    split; [eapply leb_trans; eassumption|].
    constructor; [eapply leb_trans; eassumption | exact Hfa].
Qed.

(** X3: when no coordinate is NaN, the bounding box that [computeFaceArea]
    accumulates contains every landmark of the face; it also always reaches
    to the seeds of the loop ([minX <= 1], [0 <= maxX], and so for [y]). *)
Theorem faceBounds_contains_landmarks
    (landmarks : Utils.FaceLandmarks) (minX maxX minY maxY : number) :
  Forall (fun lm => is_nan (Utils.x lm) = false /\ is_nan (Utils.y lm) = false) landmarks ->
  Utils.faceBounds landmarks = (minX, maxX, minY, maxY) ->
  (minX <=? 1)%float = true /\ (0 <=? maxX)%float = true
  /\ (minY <=? 1)%float = true /\ (0 <=? maxY)%float = true
  /\ forall lm, lm ∈ landmarks ->
       (minX <=? Utils.x lm)%float = true /\ (Utils.x lm <=? maxX)%float = true
       /\ (minY <=? Utils.y lm)%float = true /\ (Utils.y lm <=? maxY)%float = true.
Proof.
  intros Hall. rewrite faceBounds_fold. intros [= <- <- <- <-].
  assert (Hx : Forall (fun lm => is_nan (Utils.x lm) = false) landmarks)
    by (eapply Forall_impl; [exact Hall | intros lm [H _]; exact H]).
  assert (Hy : Forall (fun lm => is_nan (Utils.y lm) = false) landmarks)
    by (eapply Forall_impl; [exact Hall | intros lm [_ H]; exact H]).
  destruct (foldMin_lower Utils.x landmarks 1 eq_refl Hx) as [A1 A2].
  destruct (foldMax_upper Utils.x landmarks 0 eq_refl Hx) as [B1 B2].
  destruct (foldMin_lower Utils.y landmarks 1 eq_refl Hy) as [C1 C2].
  destruct (foldMax_upper Utils.y landmarks 0 eq_refl Hy) as [D1 D2].
  repeat (split; [assumption|]).
  intros lm Hin. rewrite Forall_forall in A2, B2, C2, D2. auto.
Qed.

(** X2: [computeFaceArea] never returns a negative area: the result is NaN
    or at least 0.  A single NaN coordinate makes it NaN, and then the
    too-small test [area < MIN_FACE_AREA] is false.  A face without
    landmarks has area 0. *)
Theorem computeFaceArea_not_negative (landmarks : Utils.FaceLandmarks) :
  (is_nan (Utils.computeFaceArea landmarks) = true
   \/ (0 <=? Utils.computeFaceArea landmarks)%float = true)
  /\ (Exists (fun lm => is_nan (Utils.x lm) = true \/ is_nan (Utils.y lm) = true) landmarks ->
      is_nan (Utils.computeFaceArea landmarks) = true
      /\ (Utils.computeFaceArea landmarks <? Utils.MIN_FACE_AREA)%float = false)
  /\ (landmarks = [] -> Utils.computeFaceArea landmarks = 0%float).
Proof.
  unfold Utils.computeFaceArea. rewrite faceBounds_fold.
  set (w := (foldMax Utils.x landmarks 0 - foldMin Utils.x landmarks 1)%float).
  set (h := (foldMax Utils.y landmarks 0 - foldMin Utils.y landmarks 1)%float).
  assert (Hpos : forall v, is_nan (Math_max 0 v) = true \/ (0 <=? Math_max 0 v)%float = true).
  { intros v. destruct (is_nan v) eqn:Nv.
    - left. rewrite Math_max_nan by (rewrite Nv; apply orb_true_r). reflexivity.
    - right. destruct (Math_max_spec 0 v eq_refl Nv) as (_ & H & _). exact H. }
  split; [|split].
  - destruct (Hpos w) as [Hw | Hw]; [left; apply mul_nan; rewrite Hw; reflexivity|].
    destruct (Hpos h) as [Hh | Hh]; [left; apply mul_nan; rewrite Hh; apply orb_true_r|].
    apply mul_nonnegative; assumption.
  - intros Hex.
    assert (Hn : is_nan (Math_max 0 w * Math_max 0 h)%float = true).
    { apply mul_nan. apply Exists_exists in Hex as (lm & Hin & [Hx | Hy]).
      - assert (E : is_nan w = true).
        { apply sub_nan. rewrite (foldMax_exists_nan Utils.x landmarks 0); [reflexivity|].
          apply Exists_exists. eauto. }
        rewrite (Math_max_nan 0 w) by (rewrite E; apply orb_true_r). reflexivity.
      - assert (E : is_nan h = true).
        { apply sub_nan. rewrite (foldMax_exists_nan Utils.y landmarks 0); [reflexivity|].
          apply Exists_exists. eauto. }
        rewrite (Math_max_nan 0 h) by (rewrite E; apply orb_true_r).
        apply orb_true_r. }
    split; [exact Hn|].
    destruct (_ <? Utils.MIN_FACE_AREA)%float eqn:E; [|reflexivity].
    apply ltb_not_nan in E as [E _]. congruence.
  - intros ->. reflexivity.
Qed.

End FaceArea.

Section MetricInputs.
Context {engine : MathBuiltins}.

(** X4: [computeFaceMetrics] reads five numbers of a face: the [x] and [y]
    of the two eye landmarks and the [x] of the nose tip.  Depth, the nose
    tip's height and the other 475 landmarks do not change the result. *)
Theorem computeFaceMetrics_reads_five_numbers
    (face1 face2 : Utils.FaceLandmarks) (videoWidth : number)
    (leftEye1 rightEye1 noseTip1 leftEye2 rightEye2 noseTip2 : Utils.Landmark) :
  face1 !! Utils.LANDMARK_INDEX_leftEyeOuter = Some leftEye1 ->
  face1 !! Utils.LANDMARK_INDEX_rightEyeOuter = Some rightEye1 ->
  face1 !! Utils.LANDMARK_INDEX_noseTip = Some noseTip1 ->
  face2 !! Utils.LANDMARK_INDEX_leftEyeOuter = Some leftEye2 ->
  face2 !! Utils.LANDMARK_INDEX_rightEyeOuter = Some rightEye2 ->
  face2 !! Utils.LANDMARK_INDEX_noseTip = Some noseTip2 ->
  Utils.x leftEye1 = Utils.x leftEye2 -> Utils.y leftEye1 = Utils.y leftEye2 ->
  Utils.x rightEye1 = Utils.x rightEye2 -> Utils.y rightEye1 = Utils.y rightEye2 ->
  Utils.x noseTip1 = Utils.x noseTip2 ->
  Utils.computeFaceMetrics face1 videoWidth = Utils.computeFaceMetrics face2 videoWidth.
Proof.
  intros L1 R1 N1 L2 R2 N2 Elx Ely Erx Ery Enx.
  unfold Utils.computeFaceMetrics, Utils.getLandmark, Utils.distance2D.
  rewrite L1, R1, N1, L2, R2, N2, Elx, Ely, Erx, Ery, Enx. reflexivity.
Qed.

End MetricInputs.

Section OneCallPerKey.
Context {engine : MathBuiltins}.

Ltac solve_NoDup_keys :=
  match goal with
  | |- NoDup ?l => apply (bool_decide_unpack (NoDup l)); vm_compute; exact I
  end.

Ltac split_elems :=
  repeat match goal with
         | H : _ ∈ [] |- _ => apply elem_of_nil in H; destruct H
         | H : _ ∈ _ :: _ |- _ => apply elem_of_cons in H as [-> | H]
         end.

(** The shapes the face part of the individual loop can take. *)
Ltac analyzeVideo_cases iflags frame :=
  unfold IndividualProctor.analyzeVideo;
  destruct frame as [[[|pf rest] width]|];
  [ cbn; rewrite andb_false_r; destruct (i_faces iflags)
  | cbn [length lookup list_lookup];
    destruct (i_faces iflags && _)%bool;
    destruct (_ <? Utils.MIN_FACE_AREA)%float; destruct (i_faces iflags);
    (destruct (Utils.computeFaceMetrics pf width) as [m|];
     [destruct (i_gaze iflags && _)%bool|])
  | ]; simpl.

Lemma analyzeVideo_keys (iflags : IndividualFlags) (frame : option Frame) :
  NoDup (c_key <$> IndividualProctor.analyzeVideo iflags frame)
  /\ (forall c, c ∈ IndividualProctor.analyzeVideo iflags frame ->
        c_category c <> cat_audio /\ c_key c <> "speech-on" /\ c_key c <> "speech-off")
  /\ (forall c, c ∈ IndividualProctor.analyzeVideo iflags frame -> c_key c = "no-face" ->
        forall c', c' ∈ IndividualProctor.analyzeVideo iflags frame -> c' = c).
Proof.
  analyzeVideo_cases iflags frame;
    (split; [solve_NoDup_keys|]);
    (split; [intros c Hc; split_elems; repeat split; discriminate|]);
    intros c Hc Hk c' Hc'; split_elems; try reflexivity; try discriminate.
Qed.

Lemma analyzeAudio_keys (iflags : IndividualFlags) (active : bool) (rms : number) :
  NoDup (c_key <$> (IndividualProctor.analyzeAudio iflags active rms).2)
  /\ forall c, c ∈ (IndividualProctor.analyzeAudio iflags active rms).2 ->
       c_category c = cat_audio /\ (c_key c = "speech-on" \/ c_key c = "speech-off").
Proof.
  unfold IndividualProctor.analyzeAudio.
  destruct (i_audio iflags); [|split; [constructor | intros c Hc; inversion Hc]].
  destruct (negb active && _)%bool; [|destruct (active && _)%bool]; simpl;
    (split; [solve_NoDup_keys|]); intros c Hc; split_elems; auto.
Qed.

(** X5: one run of [analyze] (either proctor) or of [runDetector] posts
    each key at most once, so a candidate is never refused because of a call
    of the same run; and when the individual proctor posts no-face it posts
    no other video candidate. *)
Theorem proctor_calls_have_distinct_keys
    (iflags : IndividualFlags) (tflags : TeamFlags) (limit now : Z)
    (frame : option Frame) (mic : option (list Z))
    (sample : option (list IndividualProctor.Detection))
    (ist : IndividualProctor.State) (tst : TeamProctor.State) :
  NoDup (c_key <$> (IndividualProctor.analyze iflags frame mic ist).2)
  /\ NoDup (c_key <$> IndividualProctor.runDetector iflags sample)
  /\ NoDup (c_key <$> (TeamProctor.analyze limit tflags frame now tst).2)
  /\ (forall c, c ∈ (IndividualProctor.analyze iflags frame mic ist).2 ->
        c_key c = "no-face" ->
        forall c', c' ∈ (IndividualProctor.analyze iflags frame mic ist).2 ->
                   c_category c' <> cat_audio -> c' = c).
Proof.
  destruct (analyzeVideo_keys iflags frame) as (Hnd & Hcat & Hno).
  split; [|split; [|split]].
  - unfold IndividualProctor.analyze.
    destruct mic as [dataArray|]; [|exact Hnd].
    destruct (analyzeAudio_keys iflags (IndividualProctor.speechActive ist)
                (IndividualProctor.computeRms dataArray)) as (Hna & Hka).
    destruct (IndividualProctor.analyzeAudio _ _ _) as [active audioCalls]. simpl in *.
    rewrite fmap_app. apply NoDup_app. split; [exact Hnd|]. split; [|exact Hna].
    intros k Hin Hin'.
    apply list_elem_of_fmap in Hin as (c & -> & Hin).
    apply list_elem_of_fmap in Hin' as (c' & E & Hin').
    destruct (Hcat _ Hin) as (_ & N1 & N2). destruct (Hka _ Hin') as (_ & [K | K]); congruence.
  - unfold IndividualProctor.runDetector. destruct sample as [detections|]; [|constructor].
    destruct (i_faces iflags && _)%bool;
      (destruct (find IndividualProctor.isGadget detections);
       [destruct (i_gadgets iflags)|]); simpl; solve_NoDup_keys.
  - unfold TeamProctor.analyze. destruct frame as [[faces width]|]; [|constructor].
    cbn [snd].
    destruct (t_capacity tflags && _)%bool;
      destruct (t_presence tflags && _ && _)%bool;
      (destruct (faces !! 0%nat) as [pf|];
       [ destruct (Utils.computeFaceMetrics pf width) as [m|];
         [destruct (t_gaze tflags && _)%bool|] |]); simpl; solve_NoDup_keys.
  - unfold IndividualProctor.analyze.
    destruct mic as [dataArray|]; [|intros c Hc Hk c' Hc' _; eauto].
    destruct (analyzeAudio_keys iflags (IndividualProctor.speechActive ist)
                (IndividualProctor.computeRms dataArray)) as (_ & Hka).
    destruct (IndividualProctor.analyzeAudio _ _ _) as [active audioCalls]. simpl in *.
    intros c Hc Hk c' Hc' Hcat'.
    apply elem_of_app in Hc as [Hc | Hc];
      [|destruct (Hka _ Hc) as (_ & [K | K]); congruence].
    apply elem_of_app in Hc' as [Hc' | Hc']; [eauto|destruct (Hka _ Hc'); contradiction].
Qed.

End OneCallPerKey.

(** ** Sessions *)

(** The speech events of one mount come in turns: what may come next when
    the proctor is in state [active]. *)
Fixpoint alternates (active : bool) (calls : list Candidate) : Prop :=
  match calls with
  | [] => True
  | c :: rest => c = (if active then speechOff else speechOn) /\ alternates (negb active) rest
  end.

Definition keepsMode (a : App.Action) : Prop :=
  match a with App.SetMode _ _ => False | _ => True end.

(** The clock reading an action's [postEvent] calls use, if it makes any. *)
Definition clockReading (a : App.Action) : option Z :=
  match a with
  | App.StreamResult _ now _ | App.AnalyzeTick _ _ now _ | App.DetectorTick _ now _ => Some now
  | _ => None
  end.

(** The table after the admissions of a log. *)
Definition tableAfter (table : gmap string Z) (log : list (Candidate * option EventRecord))
  : gmap string Z :=
  fold_left
    (fun t entry => match entry.2 with Some e => <[c_key entry.1 := ts e]> t | None => t end)
    log table.

(** Every admission of a log was outside the cooldown of its key. *)
Fixpoint wellSpaced (table : gmap string Z) (log : list (Candidate * option EventRecord)) : Prop :=
  match log with
  | [] => True
  | (c, None) :: rest => wellSpaced table rest
  | (c, Some e) :: rest =>
      App.inCooldown (table !! c_key c) (ts e) = false
      /\ wellSpaced (<[c_key c := ts e]> table) rest
  end.

(** The records a log admitted, oldest first. *)
Definition admittedRecords (log : list (Candidate * option EventRecord)) : list EventRecord :=
  omap snd log.

(** The key literals of the two proctors. *)
Definition knownKeys : list string :=
  ["media-on"; "media-error"; "multi-face"; "face-small"; "yaw"; "no-face";
   "speech-on"; "speech-off"; "yolo-multi-person"; "yolo-gadget";
   "team-media-on"; "team-media-error"; "team-overflow"; "team-empty"; "team-yaw"].

(** The event list after the records [recs] were appended one by one. *)
Definition pushAll (evs recs : list EventRecord) : list EventRecord :=
  fold_left (fun evs e => App.lastEntries 19 evs ++ [e]) recs evs.

(** The flag gate of [postEvent] lets the candidate through. *)
Definition passesGate (app : App.AppState) (c : Candidate) : Prop :=
  App.isFlagEnabled (App.mode app) (App.individualFlags app) (App.teamFlags app)
    (c_category c) = true.

(** The mounted proctor is the one of the mode. *)
Definition mounted (app : App.AppState) : Prop :=
  match App.mode app, App.child app with
  | App.individual, App.IndividualMounted _ => True
  | App.team, App.TeamMounted _ => True
  | _, _ => False
  end.

Section Sessions.
Context {engine : MathBuiltins}.

(** One step of a mounted individual proctor, as far as speech goes. *)
Lemma step_speech app s a :
  App.child app = App.IndividualMounted s -> keepsMode a ->
  exists s',
    App.child (App.step app a).1 = App.IndividualMounted s'
    /\ ((audioCalls (App.step app a).2 = []
         /\ IndividualProctor.speechActive s' = IndividualProctor.speechActive s)
        \/ (audioCalls (App.step app a).2
            = [if IndividualProctor.speechActive s then speechOff else speechOn]
            /\ IndividualProctor.speechActive s'
               = negb (IndividualProctor.speechActive s))).
Proof.
  intros Hc Hk.
  destruct a as [next now| | | | |granted now rnd|frame mic now rnd|sample now rnd];
    simpl in *; try contradiction; try (exists s; split; [exact Hc | left; split; reflexivity]).
  - rewrite Hc, audioCalls_emit.
    destruct (emit_spec app (App.IndividualMounted s) now rnd
                (IndividualProctor.startStreams granted)) as (-> & _).
    exists s. split; [reflexivity|]. left. split; [destruct granted|]; reflexivity.
  - rewrite Hc. unfold IndividualProctor.analyze.
    destruct mic as [dataArray|].
    + unfold IndividualProctor.analyzeAudio.
      destruct (i_audio (App.individualFlags app)).
      * destruct (IndividualProctor.speechActive s) eqn:Es; cbn [negb andb].
        -- destruct (_ <? IndividualProctor.speechThresholdOff)%float;
             rewrite audioCalls_emit, filter_app, analyzeVideo_no_audio;
             match goal with
             | |- context [App.emit app ?ch now rnd ?calls] =>
                 destruct (emit_spec app ch now rnd calls) as (-> & _)
             end; eexists; (split; [reflexivity|]); [right | left]; split; reflexivity.
        -- destruct (IndividualProctor.speechThresholdOn <? _)%float;
             rewrite audioCalls_emit, filter_app, analyzeVideo_no_audio;
             match goal with
             | |- context [App.emit app ?ch now rnd ?calls] =>
                 destruct (emit_spec app ch now rnd calls) as (-> & _)
             end; eexists; (split; [reflexivity|]); [right | left]; split; reflexivity.
      * rewrite audioCalls_emit, filter_app, analyzeVideo_no_audio.
        match goal with
        | |- context [App.emit app ?ch now rnd ?calls] =>
            destruct (emit_spec app ch now rnd calls) as (-> & _)
        end. eexists; (split; [reflexivity|]); left; split; reflexivity.
    + rewrite audioCalls_emit, analyzeVideo_no_audio.
      destruct (emit_spec app (App.IndividualMounted s) now rnd
                  (IndividualProctor.analyzeVideo (App.individualFlags app) frame)) as (-> & _).
      exists s. split; [reflexivity|]. left. split; reflexivity.
  - rewrite Hc, audioCalls_emit, runDetector_no_audio.
    destruct (emit_spec app (App.IndividualMounted s) now rnd
                (IndividualProctor.runDetector (App.individualFlags app) sample)) as (-> & _).
    exists s. split; [reflexivity|]. left. split; reflexivity.
Qed.

(** X6: while the individual proctor stays mounted, the speech events of a
    session take turns: from silence the next one is speech-on, from speech
    it is speech-off, whatever frames, windows and flag changes come in
    between. *)
Theorem speech_events_alternate (actions : list App.Action) :
  forall (app : App.AppState) (s : IndividualProctor.State),
  App.child app = App.IndividualMounted s ->
  Forall keepsMode actions ->
  alternates (IndividualProctor.speechActive s) (audioCalls (App.run app actions).2).
Proof.
  induction actions as [|a rest IH]; intros app s Hc Hall; simpl; [exact I|].
  apply Forall_cons in Hall as [Ha Hrest].
  destruct (step_speech app s a Hc Ha) as (s' & Hc' & Hstep).
  destruct (App.step app a) as [app1 log1]. simpl in *.
  specialize (IH app1 s' Hc' Hrest).
  destruct (App.run app1 rest) as [app2 log2]. simpl in *.
  rewrite audioCalls_app.
  destruct Hstep as [[-> E] | [-> E]]; simpl; rewrite E in IH; [exact IH|].
  split; [reflexivity | exact IH].
Qed.

(** *** What a sequence of [postEvent] calls does to the store *)

Lemma postEvent_outcome mode iflags tflags now rnd c st :
  match (App.postEvent mode iflags tflags now rnd c st).2 with
  | None => (App.postEvent mode iflags tflags now rnd c st).1 = st
  | Some e =>
      ts e = now
      /\ App.inCooldown (App.lastEventRef st !! c_key c) now = false
      /\ App.lastEventRef (App.postEvent mode iflags tflags now rnd c st).1
         = <[c_key c := now]> (App.lastEventRef st)
      /\ App.events (App.postEvent mode iflags tflags now rnd c st).1
         = App.lastEntries 19 (App.events st) ++ [e]
  end.
Proof.
  unfold App.postEvent, App.throttle.
  destruct (negb _); [reflexivity|].
  destruct (App.inCooldown _ _) eqn:E; simpl; auto.
Qed.

Lemma tableAfter_app table l1 l2 :
  tableAfter table (l1 ++ l2) = tableAfter (tableAfter table l1) l2.
Proof. apply fold_left_app. Qed.

Lemma wellSpaced_app l1 : forall table l2,
  wellSpaced table l1 -> wellSpaced (tableAfter table l1) l2 -> wellSpaced table (l1 ++ l2).
Proof.
  induction l1 as [|[c [e|]] rest IH]; intros table l2 H1 H2; simpl in *; auto.
  destruct H1 as [H0 H1]. split; [exact H0|]. apply IH; assumption.
Qed.

Lemma wellSpaced_app_inv l1 : forall table l2,
  wellSpaced table (l1 ++ l2) -> wellSpaced table l1 /\ wellSpaced (tableAfter table l1) l2.
Proof.
  induction l1 as [|[c [e|]] rest IH]; intros table l2 H; simpl in *; auto.
  destruct H as [H0 H]. destruct (IH _ _ H). auto.
Qed.

Lemma admittedRecords_app l1 l2 :
  admittedRecords (l1 ++ l2) = admittedRecords l1 ++ admittedRecords l2.
Proof. apply omap_app. Qed.

Lemma pushAll_app evs r1 r2 : pushAll evs (r1 ++ r2) = pushAll (pushAll evs r1) r2.
Proof. apply fold_left_app. Qed.

(** What a log says about the store it was produced on. *)
Definition logOn (st st' : App.Store) (log : list (Candidate * option EventRecord))
    (clock : option Z) : Prop :=
  wellSpaced (App.lastEventRef st) log
  /\ App.lastEventRef st' = tableAfter (App.lastEventRef st) log
  /\ App.events st' = pushAll (App.events st) (admittedRecords log)
  /\ Forall (fun entry => forall e, entry.2 = Some e -> Some (ts e) = clock) log.

Lemma postAll_logOn mode iflags tflags now rnd calls : forall st,
  logOn st (App.postAll mode iflags tflags now rnd calls st).1
    (App.postAll mode iflags tflags now rnd calls st).2 (Some now).
Proof.
  induction calls as [|c rest IH]; intros st; simpl.
  - repeat split. constructor.
  - pose proof (postEvent_outcome mode iflags tflags now rnd c st) as H.
    destruct (App.postEvent _ _ _ _ _ c st) as [st1 sent]. simpl in H.
    specialize (IH st1). destruct (App.postAll _ _ _ _ _ rest st1) as [st2 log].
    destruct IH as (W & T & E & F). simpl in *.
    destruct sent as [e|].
    + destruct H as (Hts & Hcool & Htbl & Hev). subst now.
      unfold logOn, admittedRecords; simpl. rewrite <- Htbl, <- Hev.
      repeat split; auto. constructor; [intros e' [= <-]; reflexivity | exact F].
    + subst st1. unfold logOn, admittedRecords; simpl.
      repeat split; auto. constructor; [discriminate | exact F].
Qed.

Lemma emit_logOn app ch now rnd calls :
  logOn (App.store app) (App.store (App.emit app ch now rnd calls).1)
    (App.emit app ch now rnd calls).2 (Some now).
Proof.
  unfold App.emit.
  pose proof (postAll_logOn (App.mode app) (App.individualFlags app) (App.teamFlags app)
                now rnd calls (App.store app)) as H.
  destruct (App.postAll _ _ _ _ _ _ _) as [st log]. exact H.
Qed.

Lemma logOn_nil st clock : logOn st st [] clock.
Proof. repeat split. constructor. Qed.

Lemma step_logOn app a :
  a <> App.ClearEvents ->
  logOn (App.store app) (App.store (App.step app a).1) (App.step app a).2 (clockReading a).
Proof.
  intros Ha.
  destruct a as [next now| | | | |granted now rnd|frame mic now rnd|sample now rnd];
    simpl; try apply logOn_nil; try congruence.
  - unfold App.setMode. destruct (bool_decide _); apply logOn_nil.
  - destruct (App.child app); apply emit_logOn.
  - destruct (App.child app) as [s|s].
    + destruct (IndividualProctor.analyze _ _ _ _) as [s' calls]. apply emit_logOn.
    + destruct (TeamProctor.analyze _ _ _ _ _) as [s' calls]. apply emit_logOn.
  - destruct (App.child app); [apply emit_logOn | apply logOn_nil].
Qed.

(** Clearing the list leaves the table alone. *)
Lemma step_table app a :
  wellSpaced (App.lastEventRef (App.store app)) (App.step app a).2
  /\ App.lastEventRef (App.store (App.step app a).1)
     = tableAfter (App.lastEventRef (App.store app)) (App.step app a).2
  /\ Forall (fun entry => forall e, entry.2 = Some e -> Some (ts e) = clockReading a)
       (App.step app a).2.
Proof.
  assert (H : a = App.ClearEvents \/ a <> App.ClearEvents)
    by (destruct a; (left; reflexivity) || (right; discriminate)).
  destruct H as [-> | Ha].
  - repeat split. constructor.
  - destruct (step_logOn app a Ha) as (W & T & _ & F). auto.
Qed.

Lemma run_table actions : forall app,
  wellSpaced (App.lastEventRef (App.store app)) (App.run app actions).2
  /\ App.lastEventRef (App.store (App.run app actions).1)
     = tableAfter (App.lastEventRef (App.store app)) (App.run app actions).2
  /\ Forall (fun entry => forall e, entry.2 = Some e ->
                exists a now, a ∈ actions /\ clockReading a = Some now /\ ts e = now)
       (App.run app actions).2.
Proof.
  induction actions as [|a rest IH]; intros app; simpl.
  - repeat split. constructor.
  - destruct (step_table app a) as (W1 & T1 & F1).
    destruct (App.step app a) as [app1 log1]. simpl in *.
    destruct (IH app1) as (W2 & T2 & F2).
    destruct (App.run app1 rest) as [app2 log2]. simpl in *.
    rewrite T1 in W2, T2.
    split; [apply wellSpaced_app; assumption|].
    split; [rewrite tableAfter_app; exact T2|].
    apply Forall_app. split.
    + eapply Forall_impl; [exact F1|]. intros entry H e He.
      exists a, (ts e). split; [left|]. split; [symmetry; eauto | reflexivity].
    + eapply Forall_impl; [exact F2|]. intros entry H e He.
      destruct (H e He) as (a' & now & Hin & Hc & Ht). exists a', now.
      split; [right; exact Hin | auto].
Qed.

(** *** The rate bound *)

Lemma wellSpaced_after_entry log : forall table k t0,
  wellSpaced table log ->
  table !! k = Some t0 -> t0 <> 0%Z ->
  Forall (fun entry => forall e, entry.2 = Some e -> ts e <> 0%Z) log ->
  Forall (fun entry => forall e, entry.2 = Some e -> c_key entry.1 = k ->
                                 (4000 <= ts e - t0)%Z) log.
Proof.
  induction log as [|[c [e|]] rest IH]; intros table k t0 W Hk Ht F; [constructor| |].
  - apply Forall_cons in F as [Fe F]. simpl in W. destruct W as [Hcool W].
    assert (Hne : ts e <> 0%Z) by (apply Fe; reflexivity).
    destruct (decide (c_key c = k)) as [E | E].
    + rewrite E, Hk in Hcool. unfold App.inCooldown, App.cooldownMs in Hcool.
      assert (Hge : (4000 <= ts e - t0)%Z).
      { destruct (Z.eqb_spec t0 0); [contradiction|].
        simpl in Hcool. apply Z.ltb_ge in Hcool. exact Hcool. }
      constructor; [intros e' [= <-] _; exact Hge|].
      assert (Hk' : <[c_key c := ts e]> table !! k = Some (ts e))
        by (rewrite E; apply lookup_insert_eq).
      pose proof (IH _ k (ts e) W Hk' Hne F) as IH'.
      eapply Forall_impl; [exact IH'|]. intros entry H e' He' Hkey.
      specialize (H e' He' Hkey). lia.
    + constructor; [intros e' _ Hkey; simpl in Hkey; contradiction|].
      apply (IH (<[c_key c := ts e]> table)); auto.
      rewrite lookup_insert_ne by exact E. exact Hk.
  - apply Forall_cons in F as [_ F]. simpl in W.
    constructor; [discriminate|]. eapply IH; eauto.
Qed.

(** X7: in a session whose clock never reads 0, any two admitted records
    with the same key are at least 4000 ms apart, however many refused
    calls, other keys, mode switches and flag changes lie between them. *)
Theorem admissions_of_a_key_are_spaced
    (app : App.AppState) (actions : list App.Action)
    (before between after : list (Candidate * option EventRecord))
    (c1 c2 : Candidate) (e1 e2 : EventRecord) :
  Forall (fun a => clockReading a <> Some 0%Z) actions ->
  (App.run app actions).2 = before ++ (c1, Some e1) :: between ++ (c2, Some e2) :: after ->
  c_key c1 = c_key c2 ->
  (4000 <= ts e2 - ts e1)%Z.
Proof.
  intros Hclk Hlog Hkey.
  destruct (run_table actions app) as (W & _ & F). rewrite Hlog in W, F.
  assert (Fz : forall l : list (Candidate * option EventRecord),
               Forall (fun entry => forall e, entry.2 = Some e ->
                 exists a now, a ∈ actions /\ clockReading a = Some now /\ ts e = now) l ->
               Forall (fun entry => forall e, entry.2 = Some e -> ts e <> 0%Z) l).
  { intros l Hl. eapply Forall_impl; [exact Hl|]. intros entry H e He.
    destruct (H e He) as (a & now & Hin & Hc & <-).
    rewrite Forall_forall in Hclk. intros Hz. apply (Hclk a Hin). congruence. }
  apply Fz in F.
  apply wellSpaced_app_inv in W as [_ W]. simpl in W. destruct W as [_ W].
  apply Forall_app in F as [_ F]. apply Forall_cons in F as [F1 F].
  assert (H1 : ts e1 <> 0%Z) by (apply F1; reflexivity).
  pose proof (wellSpaced_after_entry _ _ (c_key c1) (ts e1) W (lookup_insert_eq _ _ _) H1 F)
    as Hall.
  apply Forall_app in Hall as [_ Hall]. apply Forall_cons in Hall as [H2 _].
  apply H2; [reflexivity | symmetry; exact Hkey].
Qed.

(** *** The event window *)

Lemma lastEntries_length n (l : list EventRecord) :
  length (App.lastEntries n l) = Nat.min n (length l).
Proof. unfold App.lastEntries. rewrite length_drop. lia. Qed.

Lemma lastEntries_drop n k (l l2 : list EventRecord) :
  (k <= length l)%nat -> (n <= length l - k + length l2)%nat ->
  App.lastEntries n (drop k l ++ l2) = App.lastEntries n (l ++ l2).
Proof.
  intros Hk Hn. unfold App.lastEntries.
  rewrite <- (drop_app_le l l2 k) by exact Hk.
  rewrite drop_drop, length_drop, !length_app. f_equal. lia.
Qed.

Lemma pushAll_window recs : forall evs,
  (length evs <= 20)%nat -> pushAll evs recs = App.lastEntries 20 (evs ++ recs).
Proof.
  induction recs as [|e rest IH]; intros evs Hlen; simpl.
  - rewrite app_nil_r. unfold App.lastEntries.
    replace (length evs - 20)%nat with 0%nat by lia. reflexivity.
  - change (fold_left _ rest ?x) with (pushAll x rest).
    rewrite IH by (rewrite length_app, lastEntries_length; cbn [length]; lia).
    rewrite <- app_assoc. unfold App.lastEntries at 2.
    destruct (decide (length evs <= 19)%nat) as [Hs | Hs].
    + replace (length evs - 19)%nat with 0%nat by lia. reflexivity.
    + apply lastEntries_drop; simpl; lia.
Qed.

Lemma run_events actions : forall app,
  Forall (fun a => a <> App.ClearEvents) actions ->
  App.events (App.store (App.run app actions).1)
  = pushAll (App.events (App.store app)) (admittedRecords (App.run app actions).2).
Proof.
  induction actions as [|a rest IH]; intros app Hall; simpl; [reflexivity|].
  apply Forall_cons in Hall as [Ha Hrest].
  destruct (step_logOn app a Ha) as (_ & _ & E1 & _).
  destruct (App.step app a) as [app1 log1]. simpl in *.
  specialize (IH app1 Hrest).
  destruct (App.run app1 rest) as [app2 log2]. simpl in *.
  rewrite admittedRecords_app, pushAll_app, <- E1. exact IH.
Qed.

(** X8: as long as the list is not cleared, the [events] state is the last
    20 of the records it held followed by the records admitted since, in
    order; so it never holds more than 20. *)
Theorem events_are_the_last_twenty
    (app : App.AppState) (actions : list App.Action) :
  (length (App.events (App.store app)) <= 20)%nat ->
  Forall (fun a => a <> App.ClearEvents) actions ->
  App.events (App.store (App.run app actions).1)
  = App.lastEntries 20
      (App.events (App.store app) ++ admittedRecords (App.run app actions).2)
  /\ (length (App.events (App.store (App.run app actions).1)) <= 20)%nat.
Proof.
  intros Hlen Hall.
  rewrite (run_events actions app Hall), (pushAll_window _ _ Hlen).
  split; [reflexivity|]. rewrite lastEntries_length. lia.
Qed.

(** *** What the proctors post *)

Ltac split_members :=
  repeat match goal with
         | H : _ ∈ [] |- _ => apply elem_of_nil in H; destruct H
         | H : _ ∈ _ :: _ |- _ => apply elem_of_cons in H as [-> | H]
         | H : _ ∈ _ ++ _ |- _ => apply elem_of_app in H as [H | H]
         end.

Ltac known_key := apply list_elem_of_In; simpl; tauto.

Ltac enumerate_calls H :=
  simpl in H; repeat case_match; simplify_eq/=; split_members;
  (split; [known_key | reflexivity]).

Lemma individual_analyze_calls iflags frame mic st c :
  c ∈ (IndividualProctor.analyze iflags frame mic st).2 ->
  c_key c ∈ knownKeys /\ App.individualFlag iflags (c_category c) = Some true.
Proof.
  unfold IndividualProctor.analyze, IndividualProctor.analyzeVideo,
    IndividualProctor.analyzeAudio.
  destruct iflags as [[] [] [] []]; cbn [i_audio i_faces i_gaze andb]; intros H;
    enumerate_calls H.
Qed.

Lemma individual_runDetector_calls iflags sample c :
  c ∈ IndividualProctor.runDetector iflags sample ->
  c_key c ∈ knownKeys /\ App.individualFlag iflags (c_category c) = Some true.
Proof.
  unfold IndividualProctor.runDetector.
  destruct iflags as [[] [] [] []]; cbn [i_faces i_gadgets andb]; intros H;
    enumerate_calls H.
Qed.

Lemma team_analyze_calls limit tflags frame now st c :
  c ∈ (TeamProctor.analyze limit tflags frame now st).2 ->
  c_key c ∈ knownKeys /\ App.teamFlag tflags (c_category c) = Some true.
Proof.
  unfold TeamProctor.analyze.
  destruct tflags as [[] [] []]; cbn [t_capacity t_presence t_gaze andb]; intros H;
    enumerate_calls H.
Qed.

Lemma stream_calls granted c :
  c ∈ IndividualProctor.startStreams granted \/ c ∈ TeamProctor.startStream granted ->
  c_key c ∈ knownKeys /\ c_category c = cat_system.
Proof.
  destruct granted; simpl; intros [H | H]; split_members; (split; [known_key | reflexivity]).
Qed.

Lemma mounted_cases app :
  mounted app ->
  (App.mode app = App.individual /\ exists s, App.child app = App.IndividualMounted s)
  \/ (App.mode app = App.team /\ exists s, App.child app = App.TeamMounted s).
Proof.
  unfold mounted. destruct (App.mode app), (App.child app); try contradiction; eauto.
Qed.

(** What one step posts: known keys, and candidates the gate lets through
    when the mounted proctor is the one of the mode. *)
Lemma step_calls app a :
  Forall (fun entry => c_key entry.1 ∈ knownKeys) (App.step app a).2
  /\ (mounted app ->
      mounted (App.step app a).1
      /\ Forall (fun entry => passesGate app entry.1) (App.step app a).2).
Proof.
  assert (Hlog : forall (P : Candidate -> Prop) ch now rnd calls,
            (forall c, c ∈ calls -> P c) ->
            Forall (fun entry => P entry.1) (App.emit app ch now rnd calls).2).
  { intros P ch now rnd calls H. destruct (emit_spec app ch now rnd calls) as (_ & _ & E).
    apply Forall_forall. intros entry Hin. apply H. rewrite <- E.
    apply list_elem_of_fmap. eauto. }
  assert (Hm : forall ch now rnd calls,
            mounted app -> (forall s, App.child app = App.IndividualMounted s ->
                                      exists s', ch = App.IndividualMounted s') ->
            (forall s, App.child app = App.TeamMounted s -> exists s', ch = App.TeamMounted s') ->
            mounted (App.emit app ch now rnd calls).1).
  { intros ch now rnd calls M Hi Ht.
    destruct (emit_spec app ch now rnd calls) as (Ec & Em & _).
    unfold mounted. rewrite Ec, Em.
    destruct (mounted_cases app M) as [[-> [s Hs]] | [-> [s Hs]]].
    - destruct (Hi s Hs) as [s' ->]. exact I.
    - destruct (Ht s Hs) as [s' ->]. exact I. }
  assert (Hsys : forall c, c_category c = cat_system -> passesGate app c).
  { intros c E. unfold passesGate, App.isFlagEnabled. rewrite E.
    destruct (App.mode app); reflexivity. }
  assert (Hind : forall c, App.mode app = App.individual ->
                 App.individualFlag (App.individualFlags app) (c_category c) = Some true ->
                 passesGate app c).
  { intros c Em E. unfold passesGate, App.isFlagEnabled. rewrite Em, E. reflexivity. }
  assert (Hteam : forall c, App.mode app = App.team ->
                 App.teamFlag (App.teamFlags app) (c_category c) = Some true ->
                 passesGate app c).
  { intros c Em E. unfold passesGate, App.isFlagEnabled. rewrite Em, E. reflexivity. }
  pose (known := fun c : Candidate => c_key c ∈ knownKeys).
  change (Forall (fun entry => known entry.1) (App.step app a).2
          /\ (mounted app ->
              mounted (App.step app a).1
              /\ Forall (fun entry => passesGate app entry.1) (App.step app a).2)).
  destruct a as [next now|f|f|limit| |granted now rnd|frame mic now rnd|sample now rnd]; simpl.
  - split; [constructor|]. intros M. split; [|constructor].
    unfold App.setMode. destruct (bool_decide _); [exact M|]. destruct next; exact I.
  - split; [constructor|]. intros M. split; [exact M | constructor].
  - split; [constructor|]. intros M. split; [exact M | constructor].
  - split; [constructor|]. intros M. split; [exact M | constructor].
  - split; [constructor|]. intros M. split; [exact M | constructor].
  - destruct (App.child app) as [s|s] eqn:Ech.
    + split; [apply (Hlog known); intros c Hc; apply (stream_calls granted c); auto|].
      intros M. split; [apply Hm; [exact M | intros ? [= <-]; eauto | discriminate]|].
      apply (Hlog (passesGate app)). intros c Hc. apply Hsys.
      apply (stream_calls granted c). auto.
    + split; [apply (Hlog known); intros c Hc; apply (stream_calls granted c); auto|].
      intros M. split; [apply Hm; [exact M | discriminate | intros ? [= <-]; eauto]|].
      apply (Hlog (passesGate app)). intros c Hc. apply Hsys.
      apply (stream_calls granted c). auto.
  - destruct (App.child app) as [s|s] eqn:Ech.
    + pose proof (individual_analyze_calls (App.individualFlags app) frame mic s) as H.
      destruct (IndividualProctor.analyze _ _ _ _) as [s' calls]. simpl in H.
      split; [apply (Hlog known); intros c Hc; apply H; exact Hc|].
      intros M. split; [apply Hm; [exact M | eauto | discriminate]|].
      destruct (mounted_cases app M) as [[Em _] | [_ [s0 Hs0]]]; [|congruence].
      apply (Hlog (passesGate app)). intros c Hc. apply Hind; [exact Em | apply H; exact Hc].
    + pose proof (team_analyze_calls (App.teamLimit app) (App.teamFlags app) frame now s) as H.
      destruct (TeamProctor.analyze _ _ _ _ _) as [s' calls]. simpl in H.
      split; [apply (Hlog known); intros c Hc; apply H; exact Hc|].
      intros M. split; [apply Hm; [exact M | discriminate | eauto]|].
      destruct (mounted_cases app M) as [[_ [s0 Hs0]] | [Em _]]; [congruence|].
      apply (Hlog (passesGate app)). intros c Hc. apply Hteam; [exact Em | apply H; exact Hc].
  - destruct (App.child app) as [s|s] eqn:Ech.
    + pose proof (individual_runDetector_calls (App.individualFlags app) sample) as H.
      split; [apply (Hlog known); intros c Hc; apply H; exact Hc|].
      intros M. split; [apply Hm; [exact M | intros ? [= <-]; eauto | discriminate]|].
      destruct (mounted_cases app M) as [[Em _] | [_ [s0 Hs0]]]; [|congruence].
      apply (Hlog (passesGate app)). intros c Hc. apply Hind; [exact Em | apply H; exact Hc].
    + split; [constructor|]. intros M. split; [exact M | constructor].
Qed.

Lemma run_mounted actions : forall app, mounted app -> mounted (App.run app actions).1.
Proof.
  induction actions as [|a rest IH]; intros app M; simpl; [exact M|].
  destruct (step_calls app a) as [_ H]. destruct (H M) as [M1 _].
  destruct (App.step app a) as [app1 log1]. specialize (IH app1 M1).
  destruct (App.run app1 rest) as [app2 log2]. exact IH.
Qed.

(** X9: at every point of a session the mounted proctor is the one of the
    mode, and every candidate it posts is let through by the flag gate of
    [postEvent]: the proctors test the same flags before they post. *)
Theorem mounted_proctor_passes_the_gate (actions : list App.Action) (a : App.Action) :
  mounted (App.run App.initialApp actions).1
  /\ Forall (fun entry => passesGate (App.run App.initialApp actions).1 entry.1)
       (App.step (App.run App.initialApp actions).1 a).2.
Proof.
  assert (M : mounted (App.run App.initialApp actions).1) by (apply run_mounted; exact I).
  split; [exact M|].
  destruct (step_calls (App.run App.initialApp actions).1 a) as [_ H].
  destruct (H M) as [_ F]. exact F.
Qed.

Lemma tableAfter_lookup log : forall table k,
  is_Some (tableAfter table log !! k) <->
  is_Some (table !! k) \/ exists c e, (c, Some e) ∈ log /\ c_key c = k.
Proof.
  induction log as [|[c [e|]] rest IH]; intros table k; simpl.
  - split; [auto|]. intros [H | (c & e & H & _)]; [exact H | inversion H].
  - rewrite IH. split.
    + intros [H | (c' & e' & Hin & Hk)].
      * destruct (decide (c_key c = k)) as [E | E].
        -- right. exists c, e. split; [left | exact E].
        -- rewrite lookup_insert_ne in H by exact E. auto.
      * right. exists c', e'. split; [right; exact Hin | exact Hk].
    + intros [H | (c' & e' & Hin & Hk)].
      * left. destruct (decide (c_key c = k)) as [E | E].
        -- rewrite E, lookup_insert_eq. eauto.
        -- rewrite lookup_insert_ne by exact E. exact H.
      * apply elem_of_cons in Hin as [[= -> ->] | Hin].
        -- left. rewrite Hk, lookup_insert_eq. eauto.
        -- right. eauto.
  - rewrite IH. split.
    + intros [H | (c' & e' & Hin & Hk)]; [auto|].
      right. exists c', e'. split; [right; exact Hin | exact Hk].
    + intros [H | (c' & e' & Hin & Hk)]; [auto|].
      apply elem_of_cons in Hin as [[=] | Hin]. right. eauto.
Qed.

Lemma run_keys actions : forall app,
  Forall (fun entry => c_key entry.1 ∈ knownKeys) (App.run app actions).2.
Proof.
  induction actions as [|a rest IH]; intros app; simpl; [constructor|].
  destruct (step_calls app a) as [H _].
  destruct (App.step app a) as [app1 log1]. specialize (IH app1).
  destruct (App.run app1 rest) as [app2 log2]. simpl in *.
  apply Forall_app. auto.
Qed.

(** X10: no action removes a key from the throttle table, and the only keys
    a session adds are the fifteen key literals of the two proctors: from the
    first render on, the table never has other keys. *)
Theorem throttle_table_stays_small (app : App.AppState) (actions : list App.Action) (k : string) :
  (is_Some (App.lastEventRef (App.store app) !! k) ->
   is_Some (App.lastEventRef (App.store (App.run app actions).1) !! k))
  /\ (is_Some (App.lastEventRef (App.store (App.run app actions).1) !! k) ->
      is_Some (App.lastEventRef (App.store app) !! k) \/ k ∈ knownKeys)
  /\ (is_Some (App.lastEventRef (App.store (App.run App.initialApp actions).1) !! k) ->
      k ∈ knownKeys)
  /\ length knownKeys = 15%nat.
Proof.
  assert (H : forall app0,
            is_Some (App.lastEventRef (App.store (App.run app0 actions).1) !! k) ->
            is_Some (App.lastEventRef (App.store app0) !! k) \/ k ∈ knownKeys).
  { intros app0. destruct (run_table actions app0) as (_ & -> & _).
    rewrite tableAfter_lookup. intros [H | (c & e & Hin & <-)]; [auto|]. right.
    pose proof (run_keys actions app0) as F. rewrite Forall_forall in F.
    apply (F _ Hin). }
  split; [|split; [exact (H app) | split; [|reflexivity]]].
  - destruct (run_table actions app) as (_ & -> & _). rewrite tableAfter_lookup. auto.
  - intros Hk. destruct (H App.initialApp Hk) as [[v Hv] | Hin]; [|exact Hin].
    simpl in Hv. rewrite lookup_empty in Hv. discriminate.
Qed.

End Sessions.

(** ** The team proctor's grace window *)

(** One run of the team loop: the limit and flags of that render, the
    frame, the clock. *)
Definition TeamTick : Type := Z * TeamFlags * option Frame * Z.

Definition teamLoop {engine : MathBuiltins} (ticks : list TeamTick) (st : TeamProctor.State)
  : TeamProctor.State :=
  fold_left (fun st '(limit, flags, frame, now) => (TeamProctor.analyze limit flags frame now st).1)
    ticks st.

(** A tick that shows no face: the frame is not ready or holds none. *)
Definition faceless (tick : TeamTick) : Prop :=
  match tick with
  | (_, _, Some frame, _) => faceLandmarks frame = []
  | (_, _, None, _) => True
  end.

Definition teamEmpty : Candidate :=
  mkCandidate "team-empty" cat_presence kind_video warn "No teammates detected".

Section TeamGrace.
Context {engine : MathBuiltins}.

Lemma teamLoop_faceless ticks : forall st,
  Forall faceless ticks ->
  TeamProctor.lastFaceTsRef (teamLoop ticks st) = TeamProctor.lastFaceTsRef st.
Proof.
  induction ticks as [|[[[limit flags] frame] now] rest IH]; intros st Hall; [reflexivity|].
  apply Forall_cons in Hall as [H Hrest]. unfold teamLoop in *. simpl.
  rewrite (IH _ Hrest). unfold TeamProctor.analyze.
  destruct frame as [[faces width]|]; [|reflexivity].
  simpl in H. subst faces. reflexivity.
Qed.

Lemma team_empty_iff limit flags frame now st :
  teamEmpty ∈ (TeamProctor.analyze limit flags frame now st).2 <->
  t_presence flags = true
  /\ (exists width, frame = Some (mkFrame [] width))
  /\ (5000 < now - TeamProctor.lastFaceTsRef st)%Z.
Proof.
  unfold TeamProctor.analyze, TeamProctor.NO_FACE_GRACE_MS.
  destruct frame as [[[|pf rest] width]|]; cbn [snd length lookup list_lookup Nat.ltb Nat.leb Nat.eqb].
  - rewrite andb_true_r.
    destruct (t_capacity flags && _)%bool; destruct (t_presence flags);
      destruct (Z.ltb_spec 5000 (now - TeamProctor.lastFaceTsRef st)) as [L | L]; simpl;
      split; intros H;
      repeat match goal with
             | H : _ /\ _ |- _ => destruct H
             | H : _ ∈ [] |- _ => apply elem_of_nil in H; destruct H
             | H : _ ∈ _ :: _ |- _ => apply elem_of_cons in H as [H | H]
             end; try discriminate; try lia; eauto;
      try (apply list_elem_of_In; simpl; tauto).
  - rewrite andb_false_r.
    split; [|intros (_ & (w & [=]) & _)].
    destruct (t_capacity flags && _)%bool;
      (destruct (Utils.computeFaceMetrics pf width) as [m|];
       [destruct (t_gaze flags && _)%bool|]); simpl; intros H;
      repeat match goal with
             | H : _ ∈ [] |- _ => apply elem_of_nil in H; destruct H
             | H : _ ∈ _ :: _ |- _ => apply elem_of_cons in H as [H | H]
             end; discriminate.
  - split; [intros H; inversion H | intros (_ & (w & [=]) & _)].
Qed.

(** X11: after a frame that showed a face at clock [t], followed by any
    number of runs without a face, the team proctor posts team-empty exactly
    when the presence flag is on, the frame is ready and empty, and more than
    5000 ms have passed since [t]. *)
Theorem team_empty_after_grace
    (st : TeamProctor.State) (before middle : list TeamTick)
    (limit0 : Z) (flags0 : TeamFlags) (seen : Frame) (t : Z)
    (limit : Z) (flags : TeamFlags) (frame : option Frame) (now : Z) :
  faceLandmarks seen <> [] ->
  Forall faceless middle ->
  teamEmpty ∈ (TeamProctor.analyze limit flags frame now
                 (teamLoop (before ++ (limit0, flags0, Some seen, t) :: middle) st)).2
  <-> (t_presence flags = true
       /\ (exists width, frame = Some (mkFrame [] width))
       /\ (5000 < now - t)%Z).
Proof.
  intros Hseen Hmid. rewrite team_empty_iff.
  assert (E : TeamProctor.lastFaceTsRef
                (teamLoop (before ++ (limit0, flags0, Some seen, t) :: middle) st) = t).
  { unfold teamLoop. rewrite fold_left_app. simpl.
    change (fold_left _ middle ?s) with (teamLoop middle s).
    rewrite (teamLoop_faceless middle _ Hmid).
    unfold TeamProctor.analyze. destruct seen as [[|pf rest] width]; [contradiction|].
    reflexivity. }
  rewrite E. reflexivity.
Qed.

End TeamGrace.

(** ** The first version of the metric engine

    The stand-alone viewer that preceded the proctors has its own
    [computeFaceMetrics], with the same constants and two more fields. *)

Module FirstVersion.

Inductive YawDirection := yaw_left | yaw_right | yaw_center.

Record FaceMetrics := mkFaceMetrics {
  distanceCm : number;
  yawDeg : number;
  yawDirection : YawDirection;
  closeness : number
}.

Definition computeFaceMetrics {engine : MathBuiltins}
    (landmarks : Utils.FaceLandmarks) (videoWidth : number) : option FaceMetrics :=
  if falsy videoWidth then None
  else
    match Utils.getLandmark landmarks Utils.LANDMARK_INDEX_leftEyeOuter,
          Utils.getLandmark landmarks Utils.LANDMARK_INDEX_rightEyeOuter,
          Utils.getLandmark landmarks Utils.LANDMARK_INDEX_noseTip with
    | Some leftEye, Some rightEye, Some noseTip =>
        let interpupilNorm := Utils.distance2D leftEye rightEye in
        if falsy interpupilNorm then None
        else
          let interpupilPx := (interpupilNorm * videoWidth)%float in
          let widthScale := (videoWidth / Utils.BASELINE_VIDEO_WIDTH)%float in
          let effectiveFocalPx := (Utils.BASELINE_FOCAL_PX * widthScale)%float in
          let distanceCmRaw :=
            ((Utils.DEFAULT_IPD_CM * effectiveFocalPx) / interpupilPx)%float in
          let distanceCm :=
            Utils.clamp distanceCmRaw Utils.DISTANCE_RANGE_CM_min Utils.DISTANCE_RANGE_CM_max in
          let closeness :=
            Utils.clamp
              (1 - (distanceCm - Utils.DISTANCE_RANGE_CM_min)
                   / (Utils.DISTANCE_RANGE_CM_max - Utils.DISTANCE_RANGE_CM_min))%float
              0%float 1%float in
          let eyeMidX := ((Utils.x leftEye + Utils.x rightEye) / 2)%float in
          let noseOffset := (Utils.x noseTip - eyeMidX)%float in
          let yawRatio :=
            Utils.clamp (noseOffset / (interpupilNorm * Utils.YAW_OFFSET_SCALE))%float
              (-1)%float 1%float in
          let yawDegRaw :=
            Utils.clamp (- Math_asin yawRatio * Utils.RAD2DEG)%float
              (- Utils.HEAD_YAW_MAX_DEG)%float Utils.HEAD_YAW_MAX_DEG in
          let yawDirection :=
            if (3 <? yawDegRaw)%float then yaw_right
            else if (yawDegRaw <? -3)%float then yaw_left
            else yaw_center in
          Some {| distanceCm := distanceCm; yawDeg := yawDegRaw;
                  yawDirection := yawDirection; closeness := closeness |}
    | _, _, _ => None
    end.

End FirstVersion.

Section FirstVersionFacts.
Context {engine : MathBuiltins}.

(** X12: [utils.ts] returns none exactly when the first version does, and
    otherwise the first version's [distanceCm] and [yawDeg].  The first
    version's [closeness] is NaN or in [0, 1]; its direction is right
    exactly for a yaw above 3, left exactly for a yaw below -3, and a NaN
    yaw is reported as center. *)
Theorem first_version_metrics_preserved
    (landmarks : Utils.FaceLandmarks) (videoWidth : number) :
  (fun m => Utils.mkFaceMetrics (FirstVersion.distanceCm m) (FirstVersion.yawDeg m))
    <$> FirstVersion.computeFaceMetrics landmarks videoWidth
  = Utils.computeFaceMetrics landmarks videoWidth
  /\ forall m, FirstVersion.computeFaceMetrics landmarks videoWidth = Some m ->
       (is_nan (FirstVersion.closeness m) = true
        \/ ((0 <=? FirstVersion.closeness m)%float = true
            /\ (FirstVersion.closeness m <=? 1)%float = true))
       /\ (FirstVersion.yawDirection m = FirstVersion.yaw_right
           <-> (3 <? FirstVersion.yawDeg m)%float = true)
       /\ (FirstVersion.yawDirection m = FirstVersion.yaw_left
           <-> (FirstVersion.yawDeg m <? -3)%float = true)
       /\ (is_nan (FirstVersion.yawDeg m) = true ->
           FirstVersion.yawDirection m = FirstVersion.yaw_center).
Proof.
  unfold FirstVersion.computeFaceMetrics, Utils.computeFaceMetrics.
  destruct (falsy videoWidth); [split; [reflexivity | discriminate]|].
  destruct (Utils.getLandmark landmarks Utils.LANDMARK_INDEX_leftEyeOuter) as [l|];
    [|split; [reflexivity | discriminate]].
  destruct (Utils.getLandmark landmarks Utils.LANDMARK_INDEX_rightEyeOuter) as [r|];
    [|split; [reflexivity | discriminate]].
  destruct (Utils.getLandmark landmarks Utils.LANDMARK_INDEX_noseTip) as [n|];
    [|split; [reflexivity | discriminate]].
  cbv zeta. destruct (falsy (Utils.distance2D l r)); [split; [reflexivity | discriminate]|].
  split; [reflexivity|]. intros m [= <-].
  cbn [FirstVersion.closeness FirstVersion.yawDirection FirstVersion.yawDeg].
  match goal with
  | |- context [(3 <? ?v)%float] => set (yaw := v)
  end.
  split.
  { match goal with
    | |- context [Utils.clamp ?raw 0%float 1%float] =>
        destruct (clamp_range raw 0%float 1%float eq_refl eq_refl eq_refl) as [H _]; exact H
    end. }
  assert (Hexcl : (3 <? yaw)%float = true -> (yaw <? -3)%float = true -> False).
  { intros H1 H2. pose proof (ltb_leb_trans _ _ _ H1 (ltb_leb _ _ H2)) as C.
    vm_compute in C. discriminate. }
  split; [|split].
  - destruct (3 <? yaw)%float; [tauto|].
    destruct (yaw <? -3)%float; split; discriminate.
  - destruct (3 <? yaw)%float eqn:E1; destruct (yaw <? -3)%float eqn:E2;
      split; try discriminate; try reflexivity.
    intros _. exfalso. apply Hexcl; reflexivity.
  - intros Hn.
    destruct (3 <? yaw)%float eqn:E1; [apply ltb_not_nan in E1 as [_ E1]; congruence|].
    destruct (yaw <? -3)%float eqn:E2; [apply ltb_not_nan in E2 as [E2 _]; congruence|].
    reflexivity.
Qed.

End FirstVersionFacts.

(** ** The single-mode application that preceded the two proctors *)

Module LegacyApp.

(** The four arguments of its [postEvent]: there is no category. *)
Record Call := mkCall {
  key : string;
  kind : EventKind;
  severity : Severity;
  message : string
}.

(** [addLocalEvent]: the list keeps the last ten records. *)
Definition addLocalEvent (entry : EventRecord) (current : list EventRecord) : list EventRecord :=
  App.lastEntries 9 current ++ [entry].

(** [postEvent]: the throttle alone, on the same kind of store. *)
Definition postEvent (now : Z) (rnd : string) (c : Call) (st : App.Store)
  : App.Store * option EventRecord :=
  let last := App.lastEventRef st !! key c in
  if App.inCooldown last now then (st, None)
  else
    let entry :=
      {| id := pretty now +:+ "-" +:+ rnd;
         ts := now;
         Types.message := message c;
         Types.severity := severity c;
         Types.kind := kind c |} in
    ({| App.events := addLocalEvent entry (App.events st);
        App.lastEventRef := <[key c := now]> (App.lastEventRef st) |},
     Some entry).

(** One run of its [analyze]: no flags, no face-size and no no-face rule. *)
Definition analyze {engine : MathBuiltins} (frame : option Frame) (mic : option (list Z))
    (speechActive : bool) : bool * list Call :=
  let videoCalls :=
    match frame with
    | None => []
    | Some (mkFrame faces width) =>
        let count := length faces in
        (if (1 <? count)%nat
         then [mkCall "multi-face" kind_video warn "Multiple faces detected"]
         else [])
        ++
        match faces !! 0%nat with
        | Some primaryFace =>
            match Utils.computeFaceMetrics primaryFace width with
            | Some metrics =>
                if (35 <? Math_abs (Utils.yawDeg metrics))%float
                then [mkCall "yaw" kind_video warn "Viewer looking away from screen"]
                else []
            | None => []
            end
        | None => []
        end
    end in
  match mic with
  | Some dataArray =>
      let rms := IndividualProctor.computeRms dataArray in
      if (negb speechActive && (0.05 <? rms)%float)%bool then
        (true, videoCalls ++ [mkCall "speech-on" kind_audio info "Speech detected"])
      else if (speechActive && (rms <? 0.025)%float)%bool then
        (false, videoCalls ++ [mkCall "speech-off" kind_audio info "Silence detected"])
      else (speechActive, videoCalls)
  | None => (speechActive, videoCalls)
  end.

End LegacyApp.

(** A candidate as the earlier application would have posted it. *)
Definition withoutCategory (c : Candidate) : LegacyApp.Call :=
  LegacyApp.mkCall (c_key c) (c_kind c) (c_severity c) (c_message c).

(** The two rules the individual proctor added to the face part. *)
Definition isFaceQualityKey (c : Candidate) : Prop :=
  c_key c = "face-small" \/ c_key c = "no-face".

#[local] Instance isFaceQualityKey_dec (c : Candidate) : Decision (isFaceQualityKey c).
Proof. unfold isFaceQualityKey. apply _. Defined.

Section LegacyFacts.
Context {engine : MathBuiltins}.

(** X13: with every flag on, the individual proctor's [analyze] leaves the
    same speech state as the earlier application's and posts the same calls
    in the same order, plus face-small and no-face; and the earlier
    [postEvent] admits or refuses as the throttle does, with the same record
    and the same table. *)
Theorem individual_proctor_extends_legacy
    (frame : option Frame) (mic : option (list Z)) (st : IndividualProctor.State)
    (now : Z) (rnd : string) (c : Candidate) (store : App.Store) :
  IndividualProctor.speechActive
    (IndividualProctor.analyze App.defaultIndividualFlags frame mic st).1
  = (LegacyApp.analyze frame mic (IndividualProctor.speechActive st)).1
  /\ withoutCategory
     <$> filter (fun c => ~ isFaceQualityKey c)
           (IndividualProctor.analyze App.defaultIndividualFlags frame mic st).2
     = (LegacyApp.analyze frame mic (IndividualProctor.speechActive st)).2
  /\ (LegacyApp.postEvent now rnd (withoutCategory c) store).2 = (App.throttle now rnd c store).2
  /\ App.lastEventRef (LegacyApp.postEvent now rnd (withoutCategory c) store).1
     = App.lastEventRef (App.throttle now rnd c store).1.
Proof.
  split; [|split; [|split]].
  - unfold IndividualProctor.analyze, LegacyApp.analyze, IndividualProctor.analyzeAudio,
      IndividualProctor.speechThresholdOn, IndividualProctor.speechThresholdOff.
    destruct mic as [dataArray|]; [|reflexivity]. cbn [i_audio App.defaultIndividualFlags].
    destruct (negb _ && _)%bool; [reflexivity|].
    destruct (_ && _)%bool; reflexivity.
  - unfold IndividualProctor.analyze, LegacyApp.analyze, IndividualProctor.analyzeAudio,
      IndividualProctor.analyzeVideo,
      IndividualProctor.speechThresholdOn, IndividualProctor.speechThresholdOff,
      IndividualProctor.GAZE_YAW_THRESHOLD.
    cbn [i_audio i_faces i_gaze App.defaultIndividualFlags andb].
    destruct frame as [[[|pf rest] width]|];
      cbn [length lookup list_lookup Nat.ltb Nat.leb];
      [ | destruct (match rest with [] => false | _ => true end) eqn:Hr;
          destruct (_ <? Utils.MIN_FACE_AREA)%float;
          (destruct (Utils.computeFaceMetrics pf width) as [m|];
           [destruct (35 <? _)%float|])
        | ];
      (destruct mic as [dataArray|];
       [ destruct (negb _ && _)%bool; [|destruct (_ && _)%bool] | ]);
      try (destruct rest; simpl in Hr; try discriminate); reflexivity.
  - unfold LegacyApp.postEvent, App.throttle, withoutCategory. simpl.
    destruct (App.inCooldown _ _); reflexivity.
  - unfold LegacyApp.postEvent, App.throttle, withoutCategory. simpl.
    destruct (App.inCooldown _ _); reflexivity.
Qed.

End LegacyFacts.

(** ** Instances *)

Lemma clamp_between_ordered_bounds_witness :
  is_nan (Utils.clamp 200 10 150) = is_nan 200
  /\ (is_nan 200 = false ->
      (10 <=? Utils.clamp 200 10 150)%float = true /\ (Utils.clamp 200 10 150 <=? 150)%float = true)
  /\ ((10 <=? 200)%float = true -> (200 <=? 150)%float = true ->
      (Utils.clamp 200 10 150 =? 200)%float = true)
  /\ ((200 <? 10)%float = true -> (Utils.clamp 200 10 150 =? 10)%float = true)
  /\ ((150 <? 200)%float = true -> (Utils.clamp 200 10 150 =? 150)%float = true)
  /\ (Utils.clamp (Utils.clamp 200 10 150) 10 150 =? Utils.clamp 200 10 150)%float
     = negb (is_nan 200).
Proof. apply (clamp_between_ordered_bounds 200 10 150). reflexivity. Defined.

Definition turnedFace : Utils.FaceLandmarks :=
  sampleFace (Utils.mkLandmark 0.6 0.5 0) (Utils.mkLandmark 0.4 0.5 0)
    (Utils.mkLandmark 0.55 0.45 0).

Lemma faceBounds_contains_landmarks_witness :
  (0.4 <=? 1)%float = true /\ (0 <=? 0.6)%float = true
  /\ (0.45 <=? 1)%float = true /\ (0 <=? 0.5)%float = true
  /\ forall lm, lm ∈ turnedFace ->
       (0.4 <=? Utils.x lm)%float = true /\ (Utils.x lm <=? 0.6)%float = true
       /\ (0.45 <=? Utils.y lm)%float = true /\ (Utils.y lm <=? 0.5)%float = true.
Proof.
  apply (faceBounds_contains_landmarks turnedFace 0.4 0.6 0.45 0.5).
  - apply Forall_forall. intros lm Hin. unfold turnedFace, sampleFace in Hin.
    apply list_elem_of_lookup in Hin as [i Hi].
    rewrite !list_lookup_insert_Some in Hi.
    rewrite lookup_replicate in Hi.
    repeat first [progress destruct_and? | progress destruct_or?]; subst lm;
      split; reflexivity.
  - vm_compute. reflexivity.
Defined.

(** The same face seen deeper and with the nose tip lower: same metrics. *)
Lemma computeFaceMetrics_reads_five_numbers_witness :
  Utils.computeFaceMetrics (engine := sampleEngine) turnedFace 1280
  = Utils.computeFaceMetrics (engine := sampleEngine)
      (sampleFace (Utils.mkLandmark 0.6 0.5 0.3) (Utils.mkLandmark 0.4 0.5 0.3)
         (Utils.mkLandmark 0.55 0.7 0.2)) 1280.
Proof.
  apply (computeFaceMetrics_reads_five_numbers (engine := sampleEngine) _ _ 1280
           (Utils.mkLandmark 0.6 0.5 0) (Utils.mkLandmark 0.4 0.5 0)
           (Utils.mkLandmark 0.55 0.45 0)
           (Utils.mkLandmark 0.6 0.5 0.3) (Utils.mkLandmark 0.4 0.5 0.3)
           (Utils.mkLandmark 0.55 0.7 0.2)); reflexivity.
Defined.

(** A loud window, a quiet one, a loud one: speech-on, speech-off, speech-on. *)
Lemma speech_events_alternate_witness :
  alternates false
    (audioCalls
       (App.run (engine := sampleEngine) App.initialApp
          [App.AnalyzeTick None (Some (replicate 1024 200%Z)) 100000 "a";
           App.AnalyzeTick None (Some (replicate 1024 128%Z)) 100016 "b";
           App.SetIndividualFlags App.defaultIndividualFlags;
           App.AnalyzeTick None (Some (replicate 1024 200%Z)) 100033 "c"]).2).
Proof.
  apply (speech_events_alternate (engine := sampleEngine) _ App.initialApp
           IndividualProctor.initialState eq_refl).
  repeat constructor.
Defined.

Definition noFaceTick (now : Z) (rnd : string) : App.Action :=
  App.AnalyzeTick (Some (mkFrame [] 1280)) None now rnd.

Definition noFace : Candidate :=
  mkCandidate "no-face" cat_faces kind_video warn "No face detected".

Definition noFaceRecord (now : Z) (rnd : string) : EventRecord :=
  {| id := pretty now +:+ "-" +:+ rnd; ts := now; message := "No face detected";
     severity := warn; kind := kind_video |}.

(** Four frames without a face, over a little more than four seconds. *)
Lemma admissions_of_a_key_are_spaced_witness :
  (App.run (engine := sampleEngine) App.initialApp
     [noFaceTick 100000 "a"; noFaceTick 102000 "b"; noFaceTick 103999 "c";
      noFaceTick 104000 "d"]).2
  = [] ++ (noFace, Some (noFaceRecord 100000 "a"))
       :: [(noFace, None); (noFace, None)] ++ (noFace, Some (noFaceRecord 104000 "d")) :: []
  /\ (4000 <= ts (noFaceRecord 104000 "d") - ts (noFaceRecord 100000 "a"))%Z.
Proof.
  assert (E : (App.run (engine := sampleEngine) App.initialApp
                 [noFaceTick 100000 "a"; noFaceTick 102000 "b"; noFaceTick 103999 "c";
                  noFaceTick 104000 "d"]).2
              = [] ++ (noFace, Some (noFaceRecord 100000 "a"))
                   :: [(noFace, None); (noFace, None)]
                   ++ (noFace, Some (noFaceRecord 104000 "d")) :: [])
    by (vm_compute; reflexivity).
  split; [exact E|].
  apply (admissions_of_a_key_are_spaced (engine := sampleEngine) App.initialApp
           [noFaceTick 100000 "a"; noFaceTick 102000 "b"; noFaceTick 103999 "c";
            noFaceTick 104000 "d"]
           [] [(noFace, None); (noFace, None)] [] noFace noFace
           (noFaceRecord 100000 "a") (noFaceRecord 104000 "d"));
    [repeat constructor; discriminate | exact E | reflexivity].
Defined.

Lemma events_are_the_last_twenty_witness :
  App.events
    (App.store
       (App.run (engine := sampleEngine) App.initialApp
          [noFaceTick 100000 "a"; noFaceTick 102000 "b"; noFaceTick 104000 "d"]).1)
  = App.lastEntries 20
      (App.events (App.store App.initialApp)
       ++ admittedRecords
            (App.run (engine := sampleEngine) App.initialApp
               [noFaceTick 100000 "a"; noFaceTick 102000 "b"; noFaceTick 104000 "d"]).2)
  /\ (length
        (App.events
           (App.store
              (App.run (engine := sampleEngine) App.initialApp
                 [noFaceTick 100000 "a"; noFaceTick 102000 "b"; noFaceTick 104000 "d"]).1))
      <= 20)%nat.
Proof.
  apply (events_are_the_last_twenty (engine := sampleEngine) App.initialApp).
  - simpl. lia.
  - repeat constructor; discriminate.
Defined.

(** A face at 10000, then three empty frames: the third, 5001 ms later,
    is the first to post team-empty. *)
Lemma team_empty_after_grace_witness :
  teamEmpty ∈ (TeamProctor.analyze (engine := sampleEngine) 3 App.defaultTeamFlags
                 (Some (mkFrame [] 1280)) 15001
                 (teamLoop (engine := sampleEngine)
                    ([] ++ (3%Z, App.defaultTeamFlags, Some (mkFrame [turnedFace] 1280), 10000%Z)
                        :: [(3%Z, App.defaultTeamFlags, Some (mkFrame [] 1280), 12000%Z);
                            (3%Z, App.defaultTeamFlags, None, 15000%Z)])
                    (TeamProctor.initialState 0))).2
  <-> (t_presence App.defaultTeamFlags = true
       /\ (exists width, Some (mkFrame [] 1280) = Some (mkFrame [] width))
       /\ (5000 < 15001 - 10000)%Z).
Proof.
  apply (team_empty_after_grace (engine := sampleEngine)).
  - discriminate.
  - repeat constructor.
Defined.
